(** * Schema-to-JSON-LD context converter: model and verified properties

    A shallow embedding of [src/main.py] (class [SchemaToJsonLdConverter]).

    Modelling conventions.
    - A Python [str] is a [string] holding its UTF-8 bytes.  The separators
      the code looks for (['#'], ['/'], ["XMLSchema"]) are ASCII, UTF-8 is
      self-synchronising, and bytewise order of UTF-8 agrees with code-point
      order, so splitting, substring search, [rstrip] and [sorted] behave on
      the bytes as they do on the code points.
    - A Python [dict] is an association list in insertion order with
      pairwise distinct keys ([dict_wf]); assigning to a key that is present
      keeps the key's position, assigning to a new key appends.
    - The [visited] set of the inheritance resolver is a [gset string] that
      is threaded through the recursion, because the code shares one mutable
      set between all recursive calls.
    - The triple store is the interface the code uses from it: the subjects
      of the two types it enumerates, and single-valued predicate lookup.
      A node found by a lookup has a string ([str(node)]) and a truth value
      ([if node]); for a literal the two are independent, since a literal is
      true when the value it denotes is, not when its string is not empty.
    - The file system is a parameter of the writer: the code asks it to
      make the [CIM] directory and to write a text under a name in one of
      two directories, and each request either returns or raises.  An
      exception ends the run, since the code catches none.  What the file
      system makes of a name (whether it accepts it, and which names denote
      the same file) is up to the parameter; the JSON encoder is a parameter
      as well. *)

From Stdlib Require Import Ascii.
From stdpp Require Import gmap strings list sorting.

(** ** Strings *)

(** [x in s] for a one-character [x]. *)
Fixpoint str_mem (c : ascii) (s : string) : bool :=
  match s with
  | EmptyString => false
  | String a t => if decide (a = c) then true else str_mem c t
  end.

(** [s.split(sep)] for a one-character separator: the pieces between the
    occurrences of [sep]; never the empty list. *)
Fixpoint str_split (sep : ascii) (s : string) : list string :=
  match s with
  | EmptyString => [EmptyString]
  | String a t =>
      if decide (a = sep) then EmptyString :: str_split sep t
      else match str_split sep t with
           | h :: r => String a h :: r
           | [] => [String a EmptyString]
           end
  end.

(** [needle in hay] for strings. *)
Fixpoint str_contains (needle hay : string) : bool :=
  String.prefix needle hay ||
  match hay with
  | EmptyString => false
  | String _ t => str_contains needle t
  end.

(** [s.rstrip(c)]: every trailing [c] is removed. *)
Fixpoint rstrip (c : ascii) (s : string) : string :=
  match s with
  | EmptyString => EmptyString
  | String a t =>
      match rstrip c t with
      | EmptyString => if decide (a = c) then EmptyString else String a EmptyString
      | t' => String a t'
      end
  end.

(** Truth value of a Python [str]: non-empty. *)
Definition str_truthy (s : string) : bool :=
  match s with EmptyString => false | _ => true end.

(** Truth value of an optional string ([None] and [""] are false). *)
Definition truthy (o : option string) : bool :=
  match o with Some s => str_truthy s | None => false end.

(** [x if x else None] on an optional string: what a test [if d.get(k):]
    lets through. *)
Definition when_truthy (o : option string) : option string :=
  if truthy o then o else None.

(** [_extract_local_name] (lines 272-278). *)
Definition _extract_local_name (uri : string) : string :=
  if str_mem "#" uri then List.last (str_split "#" uri) uri
  else if str_mem "/" uri then List.last (str_split "/" uri) uri
  else uri.

(** ** Python dictionaries *)

Abbreviation dict V := (list (string * V)).

Section pydict.
Context {V : Type}.

(** [d.get(k)] *)
Fixpoint dict_get (k : string) (d : dict V) : option V :=
  match d with
  | [] => None
  | (k', v) :: d' => if decide (k' = k) then Some v else dict_get k d'
  end.

(** [d[k] = v] *)
Fixpoint dict_set (k : string) (v : V) (d : dict V) : dict V :=
  match d with
  | [] => [(k, v)]
  | (k', v') :: d' =>
      if decide (k' = k) then (k, v) :: d' else (k', v') :: dict_set k v d'
  end.

(** [d.update(other)] *)
Definition dict_update (d other : dict V) : dict V :=
  fold_left (fun acc kv => dict_set kv.1 kv.2 acc) other d.

(** [d.keys()] *)
Definition dict_keys (d : dict V) : list string := d.*1.

(** Representation invariant of a dictionary. *)
Definition dict_wf (d : dict V) : Prop := NoDup d.*1.
End pydict.

(** ** Data model *)

(** The value stored in a class's ["properties"] (lines 119-124). *)
Record PropertyRef := {
  ref_id : string;
  ref_label : option string;
  ref_comment : option string;
  ref_range : option string
}.

(** The value stored in [self.classes] (lines 81-87). *)
Record ClassData := {
  cls_id : string;
  cls_label : string;
  cls_comment : option string;
  cls_subClassOf : option string;
  cls_properties : dict PropertyRef
}.

(** The value stored in [self.properties] (lines 106-112). *)
Record PropertyData := {
  prop_id : string;
  prop_label : string;
  prop_comment : option string;
  prop_domain : option string;
  prop_range : option string
}.

(** A registry is a dictionary of dictionaries: both levels are
    dictionaries. *)
Definition registry_wf (classes : dict ClassData) : Prop :=
  dict_wf classes ∧ Forall (λ kv, dict_wf (cls_properties kv.2)) classes.

Global Instance dict_wf_dec {V} (d : dict V) : Decision (dict_wf d).
Proof. unfold dict_wf. apply _. Defined.

Global Instance registry_wf_dec classes : Decision (registry_wf classes).
Proof. unfold registry_wf. apply _. Defined.

(** ** The triple store *)

(** The predicates the converter looks up with [graph.value]. *)
Inductive Predicate :=
  | RDFS_label | RDFS_comment | RDFS_subClassOf | RDFS_domain | RDFS_range.

(** A node of the store.  The converter takes a node's truth value
    ([if label]) and its string ([str(label)]).  A URI reference and a blank
    node are strings and are true when not empty.  The string of a literal
    is its lexical form is true when the Python value it denotes
    as the store holds it; a literal is true when the Python value it
    denotes is true (the integer literal [0] and the boolean literal
    [false] are not, though their strings are not empty), and a literal
    that denotes no value is true when its lexical form is not empty.
    [truth] is the truth value of the denoted value, if there is one. *)
Inductive Node :=
  | URIRef (uri : string)
  | BNode (id : string)
  | Literal (lexical : string) (truth : option bool).

(** [str(node)] *)
Definition node_str (n : Node) : string :=
  match n with
  | URIRef s => s
  | BNode s => s
  | Literal s _ => s
  end.

(** [bool(node)] *)
Definition node_bool (n : Node) : bool :=
  match n with
  | URIRef s => str_truthy s
  | BNode s => str_truthy s
  | Literal _ (Some b) => b
  | Literal s None => str_truthy s
  end.

(** The part of the triple store the converter queries:
    [graph.subjects(RDF.type, RDFS.Class)],
    [graph.subjects(RDF.type, rdfs:Property)] in the store's iteration order,
    each subject as the string [str] gives for it, and
    [graph.value(subject, predicate)], the node found, if any. *)
Record Graph := {
  class_subjects : list string;
  property_subjects : list string;
  value : string → Predicate → option Node
}.

Definition empty_graph : Graph :=
  {| class_subjects := []; property_subjects := []; value := λ _ _, None |}.

(** ** The converter object *)

Record Converter := {
  base_uri : string;
  context_base_url : option string;
  graph : Graph;
  classes : dict ClassData;
  properties : dict PropertyData
}.

(** [__init__] (lines 33-48); [None] is an absent [context_base_url]. *)
Definition __init__ (base_uri : string) (context_base_url : option string)
  : Converter :=
  {| base_uri := base_uri;
     context_base_url :=
       match context_base_url with
       | Some u => if str_truthy u then Some (rstrip "/" u) else None
       | None => None
       end;
     graph := empty_graph;
     classes := [];
     properties := [] |}.

(** [load_schemas] (lines 50-66): parsing is the store's business; the
    triples it ends up with are the argument [g]. *)
Definition load_schemas (g : Graph) (self : Converter) : Converter :=
  {| base_uri := base_uri self;
     context_base_url := context_base_url self;
     graph := g;
     classes := classes self;
     properties := properties self |}.

(** [str(x) if x else None] on the result of [graph.value]: the test is on
    the node, the result is its string. *)
Definition str_or_none (x : option Node) : option string :=
  match x with
  | Some node => if node_bool node then Some (node_str node) else None
  | None => None
  end.

(** [_get_label], [_get_comment], [_get_subclass_of], [_get_domain],
    [_get_range] (lines 280-303). *)
Definition _get_label (self : Converter) (subject : string) : option string :=
  str_or_none (value (graph self) subject RDFS_label).
Definition _get_comment (self : Converter) (subject : string) : option string :=
  str_or_none (value (graph self) subject RDFS_comment).
Definition _get_subclass_of (self : Converter) (subject : string) : option string :=
  str_or_none (value (graph self) subject RDFS_subClassOf).
Definition _get_domain (self : Converter) (subject : string) : option string :=
  str_or_none (value (graph self) subject RDFS_domain).
Definition _get_range (self : Converter) (subject : string) : option string :=
  str_or_none (value (graph self) subject RDFS_range).

(** [label or name] *)
Definition or_else (label : option string) (name : string) : string :=
  match label with
  | Some l => if str_truthy l then l else name
  | None => name
  end.

Definition set_classes (cs : dict ClassData) (self : Converter) : Converter :=
  {| base_uri := base_uri self;
     context_base_url := context_base_url self;
     graph := graph self;
     classes := cs;
     properties := properties self |}.

Definition set_properties (ps : dict PropertyData) (self : Converter) : Converter :=
  {| base_uri := base_uri self;
     context_base_url := context_base_url self;
     graph := graph self;
     classes := classes self;
     properties := ps |}.

(** ** Model extractor *)

(** Body of the loop of [extract_classes] (lines 74-87). *)
Definition extract_class (self : Converter) (class_uri : string) : Converter :=
  let class_name := _extract_local_name class_uri in
  let label := _get_label self class_uri in
  let comment := _get_comment self class_uri in
  let subclass_of := _get_subclass_of self class_uri in
  set_classes
    (dict_set class_name
       {| cls_id := class_uri;
          cls_label := or_else label class_name;
          cls_comment := comment;
          cls_subClassOf := subclass_of;
          cls_properties := [] |}
       (classes self))
    self.

(** [extract_classes] (lines 68-89). *)
Definition extract_classes (self : Converter) : Converter :=
  fold_left extract_class (class_subjects (graph self)) self.

(** [self.classes[domain_class]["properties"][prop_name] = ref]: the
    class keeps its place in the registry. *)
Definition attach (prop_name : string) (ref : PropertyRef) (cd : ClassData)
  : ClassData :=
  {| cls_id := cls_id cd;
     cls_label := cls_label cd;
     cls_comment := cls_comment cd;
     cls_subClassOf := cls_subClassOf cd;
     cls_properties := dict_set prop_name ref (cls_properties cd) |}.

(** Body of the loop of [extract_properties] (lines 98-124). *)
Definition extract_property (self : Converter) (prop_uri : string) : Converter :=
  let prop_name := _extract_local_name prop_uri in
  let label := _get_label self prop_uri in
  let comment := _get_comment self prop_uri in
  let domain := _get_domain self prop_uri in
  let range_type := _get_range self prop_uri in
  let self :=
    set_properties
      (dict_set prop_name
         {| prop_id := prop_uri;
            prop_label := or_else label prop_name;
            prop_comment := comment;
            prop_domain := domain;
            prop_range := range_type |}
         (properties self))
      self in
  match domain with
  | Some d =>
      if str_truthy d then
        let domain_class := _extract_local_name d in
        match dict_get domain_class (classes self) with
        | Some cd =>
            set_classes
              (dict_set domain_class
                 (attach prop_name
                    {| ref_id := prop_uri;
                       ref_label := label;
                       ref_comment := comment;
                       ref_range := range_type |}
                    cd)
                 (classes self))
              self
        | None => self
        end
      else self
  | None => self
  end.

(** [extract_properties] (lines 91-126). *)
Definition extract_properties (self : Converter) : Converter :=
  fold_left extract_property (property_subjects (graph self)) self.

(** ** Inheritance resolver *)

(** [_get_inherited_properties] (lines 128-158).  The recursion of the code
    is on the superclass link, which need not be well founded, so the model
    recurses on [fuel]: [None] means the fuel ran out before the call
    returned.  The result is the returned dictionary together with the
    [visited] set as the call leaves it.  The interpreter's bound on the
    depth of the call stack is not modelled. *)
Fixpoint get_inherited_fuel (fuel : nat) (self : Converter) (class_name : string)
    (visited : gset string) : option (dict PropertyRef * gset string) :=
  match fuel with
  | 0 => None
  | S fuel =>
      if decide (class_name ∈ visited) then Some ([], visited)
      else
        let visited := {[class_name]} ∪ visited in
        let inherited : dict PropertyRef := [] in
        match dict_get class_name (classes self) with
        | None => Some ([], visited)
        | Some class_data =>
            match cls_subClassOf class_data with
            | Some parent_uri =>
                if str_truthy parent_uri then
                  let parent_name := _extract_local_name parent_uri in
                  match get_inherited_fuel fuel self parent_name visited with
                  | None => None
                  | Some (parent_props, visited) =>
                      let inherited := dict_update inherited parent_props in
                      Some (dict_update inherited (cls_properties class_data),
                            visited)
                  end
                else
                  Some (dict_update inherited (cls_properties class_data),
                        visited)
            | None =>
                Some (dict_update inherited (cls_properties class_data),
                      visited)
            end
        end
  end.

(** Fuel that is enough for every call: one unit per class of the registry
    and one for the call that ends the walk. *)
Definition enough_fuel (self : Converter) : nat := S (length (classes self)).

(** The call [self._get_inherited_properties(class_name)] of line 169, with
    a fresh [visited] set. *)
Definition _get_inherited_properties (self : Converter) (class_name : string)
  : dict PropertyRef :=
  from_option fst [] (get_inherited_fuel (enough_fuel self) self class_name ∅).

(** The names on which the body of the resolver runs past the cycle guard
    (those it adds to [visited], line 136), in call order. *)
Fixpoint visit_log (fuel : nat) (self : Converter) (class_name : string)
    (visited : gset string) : list string :=
  match fuel with
  | 0 => []
  | S fuel =>
      if decide (class_name ∈ visited) then []
      else
        let visited := {[class_name]} ∪ visited in
        match dict_get class_name (classes self) with
        | None => [class_name]
        | Some class_data =>
            match cls_subClassOf class_data with
            | Some parent_uri =>
                if str_truthy parent_uri then
                  class_name ::
                    visit_log fuel self (_extract_local_name parent_uri) visited
                else [class_name]
            | None => [class_name]
            end
        end
  end.

(** ** Effective property sets, as the specification words them *)

(** The superclass chain of a class: the class, its parent, the parent's
    parent, and so on, nearest first, up to the first name that is not a
    class of the registry or that the walk has already seen. *)
Fixpoint superclass_chain (fuel : nat) (classes : dict ClassData)
    (class_name : string) (seen : gset string) : list ClassData :=
  match fuel with
  | 0 => []
  | S fuel =>
      if decide (class_name ∈ seen) then []
      else match dict_get class_name classes with
           | None => []
           | Some cd =>
               cd :: match cls_subClassOf cd with
                     | Some parent_uri =>
                         if str_truthy parent_uri then
                           superclass_chain fuel classes
                             (_extract_local_name parent_uri)
                             ({[class_name]} ∪ seen)
                         else []
                     | None => []
                     end
           end
  end.

(** Overlay of the own-property mappings of a chain given nearest first:
    the farthest ancestor is applied first, the class itself last. *)
Fixpoint overlay (chain : list ClassData) : dict PropertyRef :=
  match chain with
  | [] => []
  | cd :: ancestors => dict_update (overlay ancestors) (cls_properties cd)
  end.

(** The definition of a property name that a chain given nearest first
    resolves to: that of the nearest class declaring it. *)
Fixpoint nearest_definition (p : string) (chain : list ClassData)
  : option PropertyRef :=
  match chain with
  | [] => None
  | cd :: ancestors =>
      match dict_get p (cls_properties cd) with
      | Some r => Some r
      | None => nearest_definition p ancestors
      end
  end.

(** ** Context emitter *)

(** A JSON-LD document: the converter only builds strings and objects; the
    members of an object are a Python dictionary. *)
Inductive json :=
  | JString (s : string)
  | JObject (members : dict json).

(** The four prefix bindings both kinds of document start with
    (lines 187-192 and 220-225). *)
Definition prefix_bindings (self : Converter) : dict json :=
  [ ("cim", JString (base_uri self));
    ("xsd", JString "http://www.w3.org/2001/XMLSchema#");
    ("rdf", JString "http://www.w3.org/1999/02/22-rdf-syntax-ns#");
    ("rdfs", JString "http://www.w3.org/2000/01/rdf-schema#") ].

(** The object built for one property by the body of the loop of
    [_build_class_context] (lines 246-265). *)
Definition prop_context (prop_data : PropertyRef) : dict json :=
  let prop_context := [("@id", JString (ref_id prop_data))] in
  let prop_context :=
    match ref_range prop_data with
    | Some range_uri =>
        if str_truthy range_uri then
          if str_contains "XMLSchema" range_uri then
            let xsd_type := _extract_local_name range_uri in
            dict_set "@type" (JString ("xsd:" +:+ xsd_type)) prop_context
          else dict_set "@type" (JString "@id") prop_context
        else prop_context
    | None => prop_context
    end in
  let prop_context :=
    match ref_label prop_data with
    | Some l =>
        if str_truthy l then dict_set "rdfs:label" (JString l) prop_context
        else prop_context
    | None => prop_context
    end in
  match ref_comment prop_data with
  | Some c =>
      if str_truthy c then dict_set "rdfs:comment" (JString c) prop_context
      else prop_context
  | None => prop_context
  end.

(** [_build_class_context] (lines 217-270). *)
Definition _build_class_context (self : Converter) (class_name : string)
    (class_data : ClassData) (all_properties : dict PropertyRef) : dict json :=
  let context :=
    [ ("@context", JObject (prefix_bindings self));
      ("@id", JString (cls_id class_data));
      ("@type", JString "rdfs:Class");
      ("rdfs:label", JString (cls_label class_data)) ] in
  let context :=
    match cls_comment class_data with
    | Some c =>
        if str_truthy c then dict_set "rdfs:comment" (JString c) context
        else context
    | None => context
    end in
  let context :=
    match cls_subClassOf class_data with
    | Some parent_uri =>
        if str_truthy parent_uri then
          dict_set "rdfs:subClassOf"
            (JObject [("@id", JString parent_uri); ("@type", JString "@id")])
            context
        else context
    | None => context
    end in
  fold_left
    (λ context '(prop_full_name, prop_data),
       dict_set ("cim:" +:+ prop_full_name) (JObject (prop_context prop_data))
         context)
    all_properties context.

(** [sorted] on strings. *)
Definition sorted (l : list string) : list string := merge_sort String.le l.

(** The URL of a class's context file in the root document
    (lines 198-201). *)
Definition context_url (self : Converter) (class_name : string) : string :=
  match context_base_url self with
  | Some base =>
      if str_truthy base then base +:+ "/CIM/" +:+ class_name +:+ ".jsonld"
      else "CIM/" +:+ class_name +:+ ".jsonld"
  | None => "CIM/" +:+ class_name +:+ ".jsonld"
  end.

(** The members of the ["@context"] object of the root document
    (lines 186-206). *)
Definition main_context_members (self : Converter) : dict json :=
  fold_left
    (λ members class_name,
       dict_set class_name
         (JObject [ ("@id", JString ("cim:" +:+ class_name));
                    ("@context", JString (context_url self class_name)) ])
         members)
    (sorted (dict_keys (classes self)))
    (prefix_bindings self).

(** The root document (lines 186-206). *)
Definition main_context (self : Converter) : dict json :=
  [("@context", JObject (main_context_members self))].

(** The class context documents in the order the loop of
    [generate_class_contexts] builds them (lines 167-172), each with the
    name of its file below the [CIM] directory (line 175). *)
Definition class_contexts (self : Converter) : list (string * dict json) :=
  map (λ '(class_name, class_data),
         let all_properties := _get_inherited_properties self class_name in
         (class_name +:+ ".jsonld",
          _build_class_context self class_name class_data all_properties))
      (classes self).

(** ** Writer *)

(** The two places the converter writes to: [self.cim_dir / name]
    (line 175) and [self.output_dir / name] (line 209). *)
Inductive OutputPath :=
  | InCimDir (name : string)
  | InOutputDir (name : string).

(** What a request to the file system comes to: it returns or it raises,
    and either way it leaves the file system in some state. *)
Inductive outcome (S : Type) :=
  | Returned (s : S)
  | Raised (s : S).

Arguments Returned {S} s.
Arguments Raised {S} s.

(** The file system, as far as the converter uses it:
    [self.cim_dir.mkdir(parents=True, exist_ok=True)] (line 165), and
    opening a path for writing and dumping a text into it (lines 176-177
    and 210-211). *)
Record FileSystem := {
  fs_state : Type;
  fs_mkdir_cim : fs_state → outcome fs_state;
  fs_write : OutputPath → string → fs_state → outcome fs_state
}.

(** A request followed by the rest of the run: the code catches no
    exception, so a request that raises ends the run. *)
Definition and_then {S} (r : outcome S) (rest : S → outcome S) : outcome S :=
  match r with
  | Returned s => rest s
  | Raised s => Raised s
  end.

Section writer.
(** [json.dump(doc, f, indent=2, ensure_ascii=False)] followed by the
    UTF-8 encoding of the file: some function of the document. *)
Variable json_dumps : json → string.
Variable os : FileSystem.

(** Writing a document to a path. *)
Definition write_file (path : OutputPath) (doc : dict json)
    (fs : fs_state os) : outcome (fs_state os) :=
  fs_write os path (json_dumps (JObject doc)) fs.

(** The loop of [generate_class_contexts] (lines 167-177). *)
Fixpoint write_class_contexts (contexts : list (string * dict json))
    (fs : fs_state os) : outcome (fs_state os) :=
  match contexts with
  | [] => Returned fs
  | (file, context) :: contexts =>
      and_then (write_file (InCimDir file) context fs)
        (write_class_contexts contexts)
  end.

(** [generate_class_contexts] (lines 160-179). *)
Definition generate_class_contexts (self : Converter) (fs : fs_state os)
  : outcome (fs_state os) :=
  and_then (fs_mkdir_cim os fs) (write_class_contexts (class_contexts self)).

(** [generate_main_context] (lines 181-215). *)
Definition generate_main_context (self : Converter) (fs : fs_state os)
  : outcome (fs_state os) :=
  write_file (InOutputDir "context.jsonld") (main_context self) fs.

(** [convert] (lines 305-320) on the triples [g] that loading yields. *)
Definition convert (g : Graph) (self : Converter) (fs : fs_state os)
  : Converter * outcome (fs_state os) :=
  let self := load_schemas g self in
  let self := extract_classes self in
  let self := extract_properties self in
  (self,
   and_then (generate_class_contexts self fs) (generate_main_context self)).
End writer.

(** Extraction as [convert] runs it. *)
Definition extracted (g : Graph) (self : Converter) : Converter :=
  extract_properties (extract_classes (load_schemas g self)).

(** ** Auxiliary notions for the statements *)

(** Number of classes of the registry the resolver has not visited yet:
    the quantity that decreases along the recursion. *)
Definition unvisited (classes : dict ClassData) (visited : gset string) : nat :=
  length (filter (λ k, k ∉ visited) (dict_keys classes)).

(** [needle] occurs in [hay]. *)
Definition is_substring (needle hay : string) : Prop :=
  ∃ pre post, hay = pre +:+ needle +:+ post.

(** [n] copies of a character. *)
Fixpoint str_repeat (c : ascii) (n : nat) : string :=
  match n with 0 => EmptyString | S n => String c (str_repeat c n) end.

(** The last character of [s] is [c]. *)
Definition ends_with (c : ascii) (s : string) : Prop :=
  ∃ pre, s = pre +:+ String c EmptyString.

(** The context of a class before its properties are added
    (lines 219-241). *)
Definition class_header (self : Converter) (class_data : ClassData) : dict json :=
  _build_class_context self EmptyString class_data [].

(** The members the loop of lines 245-268 assigns, in order. *)
Definition prop_entries (all_properties : dict PropertyRef) : dict json :=
  map (λ '(prop_full_name, prop_data),
         ("cim:" +:+ prop_full_name, JObject (prop_context prop_data)))
      all_properties.

(** The descriptor [extract_classes] builds for a class subject. *)
Definition class_of_subject (g : Graph) (class_uri : string) : ClassData :=
  {| cls_id := class_uri;
     cls_label :=
       or_else (str_or_none (value g class_uri RDFS_label))
         (_extract_local_name class_uri);
     cls_comment := str_or_none (value g class_uri RDFS_comment);
     cls_subClassOf := str_or_none (value g class_uri RDFS_subClassOf);
     cls_properties := [] |}.

(** The descriptor [extract_properties] records for a property subject. *)
Definition property_of_subject (g : Graph) (prop_uri : string) : PropertyData :=
  {| prop_id := prop_uri;
     prop_label :=
       or_else (str_or_none (value g prop_uri RDFS_label))
         (_extract_local_name prop_uri);
     prop_comment := str_or_none (value g prop_uri RDFS_comment);
     prop_domain := str_or_none (value g prop_uri RDFS_domain);
     prop_range := str_or_none (value g prop_uri RDFS_range) |}.

(** The last of [uris] whose local name is [n]. *)
Definition last_named (n : string) (uris : list string) : option string :=
  last (filter (λ u, _extract_local_name u = n) uris).

(** Everything of a class descriptor but its properties. *)
Definition header_of (cd : ClassData)
  : string * string * option string * option string :=
  (cls_id cd, cls_label cd, cls_comment cd, cls_subClassOf cd).

(** The domain of a property subject is true and names a class of the
    registry: the condition of lines 115-117 under which the property is
    attached. *)
Definition attachable (g : Graph) (class_names : list string)
    (prop_uri : string) : Prop :=
  ∃ d, str_or_none (value g prop_uri RDFS_domain) = Some d
       ∧ str_truthy d = true
       ∧ _extract_local_name d ∈ class_names.

(** The reference [extract_properties] attaches for a property subject. *)
Definition ref_of_subject (g : Graph) (prop_uri : string) : PropertyRef :=
  {| ref_id := prop_uri;
     ref_label := str_or_none (value g prop_uri RDFS_label);
     ref_comment := str_or_none (value g prop_uri RDFS_comment);
     ref_range := str_or_none (value g prop_uri RDFS_range) |}.

(** An entry of an own-property mapping that stems from an attachable
    property subject among [uris]. *)
Definition attached_from (g : Graph) (class_names uris : list string)
    (entry : string * PropertyRef) : Prop :=
  ∃ u, u ∈ uris ∧ attachable g class_names u
       ∧ entry = (_extract_local_name u, ref_of_subject g u).

(** The entry of a class in the root document (lines 203-206). *)
Definition class_entry (self : Converter) (class_name : string) : json :=
  JObject [ ("@id", JString ("cim:" +:+ class_name));
            ("@context", JString (context_url self class_name)) ].

(** The per-class entries of the root document, in document order: the
    members of its ["@context"] object whose key is a class name. *)
Definition class_entries (self : Converter) : dict json :=
  filter (λ kv, kv.1 ∈ dict_keys (classes self)) (main_context_members self).

(** Strictly ascending order on strings. *)
Definition str_lt (a b : string) : Prop := String.le a b ∧ a ≠ b.

(** The names of the four prefix bindings. *)
Definition prefix_names : list string := ["cim"; "xsd"; "rdf"; "rdfs"].

(** The URL of a class's context file as the specification words it: the
    relative path when no base URL is given, else the base URL without
    trailing slashes followed by the path. *)
Definition stated_context_url (raw_base_url : option string)
    (class_name : string) : string :=
  match raw_base_url with
  | None => "CIM/" +:+ class_name +:+ ".jsonld"
  | Some u => rstrip "/" u +:+ "/CIM/" +:+ class_name +:+ ".jsonld"
  end.

(** The property with URI [prop_uri] is in the global property registry. *)
Definition recorded (self : Converter) (prop_uri : string) : Prop :=
  ∃ n pd, dict_get n (properties self) = Some pd ∧ prop_id pd = prop_uri.

(** The property with URI [prop_uri] is in the own-property mapping of some
    class. *)
Definition attached_somewhere (self : Converter) (prop_uri : string) : Prop :=
  ∃ c cd n r,
    (c, cd) ∈ classes self ∧ (n, r) ∈ cls_properties cd ∧ ref_id r = prop_uri.

(** Some class context document has a property entry whose ["@id"] is
    [prop_uri]. *)
Definition emitted_somewhere (self : Converter) (prop_uri : string) : Prop :=
  ∃ file doc p entry,
    (file, doc) ∈ class_contexts self
    ∧ dict_get ("cim:" +:+ p) doc = Some (JObject entry)
    ∧ dict_get "@id" entry = Some (JString prop_uri).

(** ** The JSON encoder used in the examples *)

(** [json.dumps(doc, indent=2, ensure_ascii=False)] as Python's [json]
    module documents it: members one per line, indented by two spaces per
    level, [": "] after a key, [","] between members, and in strings the
    quote, the backslash and the control characters escaped.  The
    properties of the writer below hold for every encoder; this one is for
    the examples. *)
Definition hex_digit (n : nat) : ascii :=
  ascii_of_nat (if decide (n < 10) then 48 + n else 87 + n).

Definition escape_char (c : ascii) : string :=
  let n := nat_of_ascii c in
  if decide (n = 34) then String "092" (String "034" EmptyString)
  else if decide (n = 92) then String "092" (String "092" EmptyString)
  else if decide (n = 10) then String "092" "n"
  else if decide (n = 13) then String "092" "r"
  else if decide (n = 9) then String "092" "t"
  else if decide (n = 8) then String "092" "b"
  else if decide (n = 12) then String "092" "f"
  else if decide (n < 32) then
    String "092" ("u00" +:+ String (hex_digit (n / 16))
                              (String (hex_digit (n mod 16)) EmptyString))
  else String c EmptyString.

Fixpoint escape (s : string) : string :=
  match s with
  | EmptyString => EmptyString
  | String c s => escape_char c +:+ escape s
  end.

Definition quote (s : string) : string :=
  String "034" (escape s +:+ String "034" EmptyString).

Definition newline : string := String "010" EmptyString.

Fixpoint pad (level : nat) : string :=
  match level with 0 => EmptyString | S level => "  " +:+ pad level end.

Fixpoint dumps_at (level : nat) (j : json) : string :=
  match j with
  | JString s => quote s
  | JObject [] => "{}"
  | JObject members =>
      "{" +:+ newline
      +:+ (fix items (ms : dict json) : string :=
             match ms with
             | [] => EmptyString
             | (k, v) :: ms' =>
                 pad (S level) +:+ quote k +:+ ": " +:+ dumps_at (S level) v
                 +:+ match ms' with
                     | [] => EmptyString
                     | _ => "," +:+ newline
                     end
                 +:+ items ms'
             end) members
      +:+ newline +:+ pad level +:+ "}"
  end.

Definition json_dumps_indent2 (j : json) : string := dumps_at 0 j.

(** ** Runs of context generation *)

(** One run of context generation: the class contexts, then the root
    document (lines 314-315). *)
Definition generate (json_dumps : json → string) (os : FileSystem)
    (self : Converter) (fs : fs_state os) : outcome (fs_state os) :=
  and_then (generate_class_contexts json_dumps os self fs)
    (generate_main_context json_dumps os self).

(** The requests to write that a run makes if none raises, in order: the
    path and the text of each. *)
Definition writes (json_dumps : json → string) (self : Converter)
  : list (OutputPath * string) :=
  map (λ '(file, context), (InCimDir file, json_dumps (JObject context)))
    (class_contexts self)
  ++ [(InOutputDir "context.jsonld", json_dumps (JObject (main_context self)))].

(** Requests to write made one after the other, up to the first that
    raises. *)
Fixpoint run_writes (os : FileSystem) (ws : list (OutputPath * string))
    (fs : fs_state os) : outcome (fs_state os) :=
  match ws with
  | [] => Returned fs
  | (path, text) :: ws =>
      and_then (fs_write os path text fs) (run_writes os ws)
  end.

(** A file system that keeps a record of what it has written, in the order
    of the requests, and raises on the paths that [refused] picks, leaving
    the record as it is.  Making the directory returns. *)
Definition recorder (refused : OutputPath → bool) : FileSystem :=
  {| fs_state := list (OutputPath * string);
     fs_mkdir_cim := Returned;
     fs_write := λ path text record,
       if refused path then Raised record
       else Returned (record ++ [(path, text)]) |}.

(** No request of [ws] is on a refused path. *)
Definition all_accepted (refused : OutputPath → bool)
    (ws : list (OutputPath * string)) : bool :=
  forallb (λ w, negb (refused w.1)) ws.

(** The requests of [ws] before the first one on a refused path. *)
Fixpoint accepted_prefix (refused : OutputPath → bool)
    (ws : list (OutputPath * string)) : list (OutputPath * string) :=
  match ws with
  | [] => []
  | w :: ws => if refused w.1 then [] else w :: accepted_prefix refused ws
  end.

(** A directory without subdirectories: a file name with a slash in it is
    refused. *)
Definition no_subdirectories (path : OutputPath) : bool :=
  match path with
  | InCimDir name => str_mem "/" name
  | InOutputDir name => str_mem "/" name
  end.

(** Every path is accepted. *)
Definition nothing_refused (path : OutputPath) : bool := false.

(** The cases of one step. *)
Inductive step_case (self : Converter) (class_name : string)
    (visited : gset string) : Prop :=
  | case_visited : class_name ∈ visited → step_case self class_name visited
  | case_unknown :
      class_name ∉ visited → dict_get class_name (classes self) = None →
      step_case self class_name visited
  | case_root cd :
      class_name ∉ visited → dict_get class_name (classes self) = Some cd →
      truthy (cls_subClassOf cd) = false →
      step_case self class_name visited
  | case_child cd parent_uri :
      class_name ∉ visited → dict_get class_name (classes self) = Some cd →
      cls_subClassOf cd = Some parent_uri → str_truthy parent_uri = true →
      step_case self class_name visited.

(** ** Notions for the further properties *)

(** The elements of a list in the order of their first occurrence: the
    order in which a dictionary filled from the list gets its keys. *)
Fixpoint first_occurrences (l : list string) : list string :=
  match l with
  | [] => []
  | x :: l => x :: filter (λ y, y ≠ x) (first_occurrences l)
  end.

(** The class the domain of a property subject names, if it has a domain
    that passes the test of line 115. *)
Definition domain_class (g : Graph) (prop_uri : string) : option string :=
  _extract_local_name
  <$> when_truthy (str_or_none (value g prop_uri RDFS_domain)).

(** The references of the property subjects among [uris] whose domain names
    the class [c], in the order of [uris]. *)
Definition own_entries (g : Graph) (c : string) (uris : list string)
  : dict PropertyRef :=
  map (λ u, (_extract_local_name u, ref_of_subject g u))
    (filter (λ u, domain_class g u = Some c) uris).

(** A class descriptor with its own-property mapping replaced. *)
Definition with_properties (ps : dict PropertyRef) (cd : ClassData) : ClassData :=
  {| cls_id := cls_id cd;
     cls_label := cls_label cd;
     cls_comment := cls_comment cd;
     cls_subClassOf := cls_subClassOf cd;
     cls_properties := ps |}.

(** ** Example schemas *)

Global Instance Predicate_eq_dec : EqDecision Predicate.
Proof. solve_decision. Defined.

(** A store given by the subjects of each type and a list of
    (subject, predicate, object) facts; a lookup yields the first match. *)
Fixpoint facts_value {A} (facts : list (string * Predicate * A))
    (subject : string) (p : Predicate) : option A :=
  match facts with
  | [] => None
  | (s, q, o) :: facts =>
      if decide (s = subject ∧ q = p) then Some o
      else facts_value facts subject p
  end.

(** A store whose objects are any nodes. *)
Definition node_store (class_uris property_uris : list string)
    (facts : list (string * Predicate * Node)) : Graph :=
  {| class_subjects := class_uris;
     property_subjects := property_uris;
     value := facts_value facts |}.

(** The node for an object given as a string: a plain literal for a label
    or a comment, a URI reference for a superclass, a domain or a range. *)
Definition node_of (p : Predicate) (o : string) : Node :=
  match p with
  | RDFS_label | RDFS_comment => Literal o None
  | _ => URIRef o
  end.

(** A store whose objects are given as strings. *)
Definition store (class_uris property_uris : list string)
    (facts : list (string * Predicate * string)) : Graph :=
  node_store class_uris property_uris
    (map (λ '(s, p, o), (s, p, node_of p o)) facts).

Definition cim16 : string := "http://iec.ch/TC57/2013/CIM-schema-cim16#".

(** [C subClassOf B subClassOf A], one property each. *)
Definition chain_graph : Graph :=
  store ["http://ex.org/s#C"; "http://ex.org/s#A"; "http://ex.org/s#B"]
        ["http://ex.org/s#B.b"; "http://ex.org/s#C.c"; "http://ex.org/s#A.a"]
        [ ("http://ex.org/s#C", RDFS_subClassOf, "http://ex.org/s#B");
          ("http://ex.org/s#B", RDFS_subClassOf, "http://ex.org/s#A");
          ("http://ex.org/s#A.a", RDFS_domain, "http://ex.org/s#A");
          ("http://ex.org/s#B.b", RDFS_domain, "http://ex.org/s#B");
          ("http://ex.org/s#C.c", RDFS_domain, "http://ex.org/s#C") ].

(** [B subClassOf A]; both declare a property with local name [p], with a
    datatype range on [A] and a class range on [B]. *)
Definition override_graph : Graph :=
  store ["http://ex.org/s#A"; "http://ex.org/s#B"]
        ["http://ex.org/a#p"; "http://ex.org/b#p"]
        [ ("http://ex.org/s#B", RDFS_subClassOf, "http://ex.org/s#A");
          ("http://ex.org/a#p", RDFS_domain, "http://ex.org/s#A");
          ("http://ex.org/a#p", RDFS_range, "http://www.w3.org/2001/XMLSchema#string");
          ("http://ex.org/b#p", RDFS_domain, "http://ex.org/s#B");
          ("http://ex.org/b#p", RDFS_range, "http://ex.org/s#A") ].

(** [X subClassOf Y] and [Y subClassOf X]. *)
Definition cycle_graph : Graph :=
  store ["http://ex.org/s#X"; "http://ex.org/s#Y"]
        ["http://ex.org/s#X.x"; "http://ex.org/s#Y.y"]
        [ ("http://ex.org/s#X", RDFS_subClassOf, "http://ex.org/s#Y");
          ("http://ex.org/s#Y", RDFS_subClassOf, "http://ex.org/s#X");
          ("http://ex.org/s#X.x", RDFS_domain, "http://ex.org/s#X");
          ("http://ex.org/s#Y.y", RDFS_domain, "http://ex.org/s#Y") ].

Definition chain_schema : Converter := extracted chain_graph (__init__ cim16 None).
Definition override_schema : Converter :=
  extracted override_graph (__init__ cim16 None).
Definition cycle_schema : Converter := extracted cycle_graph (__init__ cim16 None).

(** Two class subjects with the local name [T]. *)
Definition same_name_graph : Graph :=
  store ["http://ex.org/a#T"; "http://ex.org/b#T"] [] [].

(** Two class subjects with the local names [b/c] and [Z]. *)
Definition slash_name_graph : Graph :=
  store ["http://ex.org/a#b/c"; "http://ex.org/s#Z"] [] [].

Definition slash_name_schema : Converter :=
  extracted slash_name_graph (__init__ cim16 None).

(** A class named like the [cim] prefix, and a class [a]. *)
Definition prefix_clash_graph : Graph :=
  store ["http://ex.org/s#cim"; "http://ex.org/s#a"] [] [].

Definition prefix_clash_schema : Converter :=
  extracted prefix_clash_graph (__init__ cim16 None).

(** The override schema hosted at the base URL ["/"]. *)
Definition slash_schema : Converter :=
  extracted override_graph (__init__ cim16 (Some "/")).

(** Two properties with the local name [p]: the first has no domain, the
    second, extracted later, has domain [A]. *)
Definition shadow_graph : Graph :=
  store ["http://ex.org/s#A"]
        ["http://ex.org/a#p"; "http://ex.org/b#p"]
        [ ("http://ex.org/b#p", RDFS_domain, "http://ex.org/s#A") ].

Definition shadow_schema : Converter :=
  extracted shadow_graph (__init__ cim16 None).

(** A property without a domain and one whose domain is not a class. *)
Definition orphan_graph : Graph :=
  store ["http://ex.org/s#A"]
        ["http://ex.org/s#A.a"; "http://ex.org/s#free"; "http://ex.org/s#Z.z"]
        [ ("http://ex.org/s#A.a", RDFS_domain, "http://ex.org/s#A");
          ("http://ex.org/s#Z.z", RDFS_domain, "http://ex.org/s#Z") ].

(** The chain schema with its class subjects in another order. *)
Definition chain_graph_reordered : Graph :=
  store ["http://ex.org/s#A"; "http://ex.org/s#B"; "http://ex.org/s#C"]
        ["http://ex.org/s#B.b"; "http://ex.org/s#C.c"; "http://ex.org/s#A.a"]
        [ ("http://ex.org/s#C", RDFS_subClassOf, "http://ex.org/s#B");
          ("http://ex.org/s#B", RDFS_subClassOf, "http://ex.org/s#A");
          ("http://ex.org/s#A.a", RDFS_domain, "http://ex.org/s#A");
          ("http://ex.org/s#B.b", RDFS_domain, "http://ex.org/s#B");
          ("http://ex.org/s#C.c", RDFS_domain, "http://ex.org/s#C") ].

(** The class [A] has the integer literal [0] as its label and the boolean
    literal [false] as its comment, and its property has the integer
    literal [0] as its label; the class [B] has a plain label and
    comment. *)
Definition typed_label_graph : Graph :=
  node_store ["http://ex.org/s#A"; "http://ex.org/s#B"]
    ["http://ex.org/s#A.n"]
    [ ("http://ex.org/s#A", RDFS_label, Literal "0" (Some false));
      ("http://ex.org/s#A", RDFS_comment, Literal "false" (Some false));
      ("http://ex.org/s#B", RDFS_label, Literal "Bee" (Some true));
      ("http://ex.org/s#B", RDFS_comment, Literal "a bee" None);
      ("http://ex.org/s#A.n", RDFS_domain, URIRef "http://ex.org/s#A");
      ("http://ex.org/s#A.n", RDFS_label, Literal "0" (Some false)) ].

Definition typed_label_schema : Converter :=
  extracted typed_label_graph (__init__ cim16 None).

(** A class whose superclass is not a class of the store. *)
Definition dangling_graph : Graph :=
  store ["http://ex.org/s#A"]
        ["http://ex.org/s#A.a"]
        [ ("http://ex.org/s#A", RDFS_subClassOf, "http://ex.org/s#Missing");
          ("http://ex.org/s#A.a", RDFS_domain, "http://ex.org/s#A") ].

Definition dangling_schema : Converter :=
  extracted dangling_graph (__init__ cim16 None).

(** * Properties *)

(** ** Dictionaries *)

Section pydict_facts.
Context {V : Type}.
Implicit Types (d o : dict V) (k : string) (v : V).

Lemma dict_get_set k k' v d :
  dict_get k' (dict_set k v d) = if decide (k = k') then Some v else dict_get k' d.
Proof.
  induction d as [|[k0 v0] d IH]; simpl.
  - repeat case_decide; congruence.
  - repeat (case_decide; simpl); subst; try congruence.
Qed.

Lemma dict_get_set_eq k v d : dict_get k (dict_set k v d) = Some v.
Proof. rewrite dict_get_set. by case_decide. Qed.

Lemma dict_get_set_ne k k' v d :
  k ≠ k' → dict_get k' (dict_set k v d) = dict_get k' d.
Proof. intros. rewrite dict_get_set. by case_decide. Qed.

Lemma dict_get_None k d : dict_get k d = None ↔ k ∉ d.*1.
Proof.
  induction d as [|[k0 v0] d IH]; simpl.
  - split; [intros _; apply not_elem_of_nil | done].
  - rewrite not_elem_of_cons. case_decide; subst.
    + split; [done | intros [? _]; done].
    + rewrite IH. split; [by split|by intros [_ ?]].
Qed.

Lemma dict_get_is_Some k d : is_Some (dict_get k d) ↔ k ∈ d.*1.
Proof.
  rewrite <- not_eq_None_Some, dict_get_None.
  destruct (decide (k ∈ d.*1)); naive_solver.
Qed.

Lemma dict_get_Some_elem k v d : dict_get k d = Some v → (k, v) ∈ d.
Proof.
  induction d as [|[k0 v0] d IH]; simpl; [done|].
  case_decide; subst.
  - intros Heq. injection Heq as <-. apply list_elem_of_here.
  - intros. apply list_elem_of_further. auto.
Qed.

Lemma dict_elem_get k v d : dict_wf d → (k, v) ∈ d → dict_get k d = Some v.
Proof.
  unfold dict_wf. induction d as [|[k0 v0] d IH]; simpl.
  - intros _ H. by apply elem_of_nil in H.
  - rewrite NoDup_cons. intros [Hk0 Hd] [[= -> ->]|Hin]%elem_of_cons.
    + by case_decide.
    + case_decide; subst; [|by auto].
      destruct Hk0. apply list_elem_of_fmap. by exists (k, v).
Qed.

Lemma dict_set_keys_present k v d : k ∈ d.*1 → (dict_set k v d).*1 = d.*1.
Proof.
  induction d as [|[k0 v0] d IH]; simpl.
  - intros H. by apply elem_of_nil in H.
  - intros [->|Hin]%elem_of_cons; case_decide; subst; simpl; try done.
    f_equal. by apply IH.
Qed.

Lemma dict_set_keys_absent k v d : k ∉ d.*1 → (dict_set k v d).*1 = d.*1 ++ [k].
Proof.
  induction d as [|[k0 v0] d IH]; simpl; [done|].
  rewrite not_elem_of_cons. intros [Hne Hnin].
  case_decide; subst; [done|]. simpl. f_equal. by apply IH.
Qed.

Lemma dict_set_keys k v d :
  (dict_set k v d).*1 = if decide (k ∈ d.*1) then d.*1 else d.*1 ++ [k].
Proof.
  case_decide; auto using dict_set_keys_present, dict_set_keys_absent.
Qed.

Lemma dict_set_wf k v d : dict_wf d → dict_wf (dict_set k v d).
Proof.
  unfold dict_wf. rewrite dict_set_keys. case_decide; [done|].
  intros Hd. apply NoDup_app. split_and!; [done| |apply NoDup_singleton].
  intros x Hx Hk. apply list_elem_of_singleton in Hk. by subst.
Qed.

Lemma dict_update_wf d o : dict_wf d → dict_wf (dict_update d o).
Proof.
  unfold dict_update. revert d.
  induction o as [|[k v] o IH]; intros d Hd; simpl; [done|].
  apply IH. by apply dict_set_wf.
Qed.

Lemma dict_update_cons d k v o :
  dict_update d ((k, v) :: o) = dict_update (dict_set k v d) o.
Proof. reflexivity. Qed.

Lemma dict_get_update k d o :
  dict_wf o →
  dict_get k (dict_update d o) =
    match dict_get k o with Some v => Some v | None => dict_get k d end.
Proof.
  unfold dict_wf. revert d.
  induction o as [|[k0 v0] o IH]; intros d Hwf; [done|].
  rewrite fmap_cons in Hwf. apply NoDup_cons in Hwf as [Hk0 Ho].
  rewrite dict_update_cons, IH by done. simpl in *.
  case_decide; subst.
  - apply dict_get_None in Hk0. rewrite Hk0. apply dict_get_set_eq.
  - destruct (dict_get k o); [done|]. by apply dict_get_set_ne.
Qed.

Lemma dict_update_fresh d o :
  dict_wf o → (∀ x, x ∈ o.*1 → x ∉ d.*1) → dict_update d o = d ++ o.
Proof.
  unfold dict_wf. revert d.
  induction o as [|[k0 v0] o IH]; intros d Hwf Hfresh.
  - by rewrite app_nil_r.
  - rewrite fmap_cons in Hwf, Hfresh. apply NoDup_cons in Hwf as [Hk0 Ho].
    cbn in Hk0, Hfresh.
    rewrite dict_update_cons, IH; [| done |].
    + assert (dict_set k0 v0 d = d ++ [(k0, v0)]) as ->.
      { clear -Hfresh. specialize (Hfresh k0 (list_elem_of_here _ _)).
        induction d as [|[k1 v1] d IH]; simpl; [done|].
        apply not_elem_of_cons in Hfresh as [? ?].
        case_decide; subst; [done|]. by rewrite IH. }
      by rewrite <- app_assoc.
    + intros x Hx. rewrite dict_set_keys_absent
        by (apply Hfresh, list_elem_of_here).
      rewrite elem_of_app, list_elem_of_singleton.
      intros [Hd| ->]; [|done].
      by apply (Hfresh x); [apply list_elem_of_further|].
Qed.

Lemma dict_update_empty o : dict_wf o → dict_update [] o = o.
Proof.
  intros. rewrite dict_update_fresh; [done..|].
  intros x _. apply not_elem_of_nil.
Qed.
End pydict_facts.

(** ** Inheritance resolver: termination *)

Lemma filter_unvisited_le (l : list string) (x : string) (visited : gset string) :
  length (filter (λ k, k ∉ {[x]} ∪ visited) l)
  ≤ length (filter (λ k, k ∉ visited) l).
Proof.
  induction l as [|a l IH]; [done|].
  rewrite !filter_cons.
  destruct (decide (a ∉ {[x]} ∪ visited)) as [Ha|Ha];
    destruct (decide (a ∉ visited)) as [Hb|Hb]; simpl; try lia.
  exfalso. apply Hb. set_solver.
Qed.

Lemma filter_unvisited_lt (l : list string) (x : string) (visited : gset string) :
  x ∈ l → x ∉ visited →
  length (filter (λ k, k ∉ {[x]} ∪ visited) l)
  < length (filter (λ k, k ∉ visited) l).
Proof.
  induction l as [|a l IH]; intros Hin Hx.
  { by apply elem_of_nil in Hin. }
  rewrite !filter_cons.
  pose proof (filter_unvisited_le l x visited).
  apply elem_of_cons in Hin as [->|Hin].
  - rewrite decide_False by set_solver.
    rewrite decide_True by done. simpl. lia.
  - specialize (IH Hin Hx).
    destruct (decide (a ∉ {[x]} ∪ visited)) as [Ha|Ha];
      destruct (decide (a ∉ visited)) as [Hb|Hb]; simpl; try lia.
    exfalso. apply Hb. set_solver.
Qed.

Lemma unvisited_le_length (classes : dict ClassData) (visited : gset string) :
  unvisited classes visited ≤ length classes.
Proof.
  unfold unvisited, dict_keys.
  rewrite <- (length_fmap fst classes). apply length_filter.
Qed.

Lemma unvisited_add (classes : dict ClassData) (class_name : string)
    (visited : gset string) (cd : ClassData) :
  class_name ∉ visited →
  dict_get class_name classes = Some cd →
  unvisited classes ({[class_name]} ∪ visited) < unvisited classes visited.
Proof.
  intros Hv Hget. apply filter_unvisited_lt; [|done].
  apply dict_get_is_Some. by eexists.
Qed.

(** One step of the resolver, case by case. *)
Lemma get_inherited_fuel_visited fuel self class_name visited :
  class_name ∈ visited →
  get_inherited_fuel (S fuel) self class_name visited = Some ([], visited).
Proof. intros. simpl. by rewrite decide_True. Qed.

Lemma get_inherited_fuel_unknown fuel self class_name visited :
  class_name ∉ visited →
  dict_get class_name (classes self) = None →
  get_inherited_fuel (S fuel) self class_name visited
  = Some ([], {[class_name]} ∪ visited).
Proof. intros ? Hget. simpl. rewrite decide_False by done. by rewrite Hget. Qed.

Lemma get_inherited_fuel_root fuel self class_name visited cd :
  class_name ∉ visited →
  dict_get class_name (classes self) = Some cd →
  truthy (cls_subClassOf cd) = false →
  get_inherited_fuel (S fuel) self class_name visited
  = Some (dict_update [] (cls_properties cd), {[class_name]} ∪ visited).
Proof.
  intros ? Hget Hsub. simpl. rewrite decide_False by done. rewrite Hget.
  destruct (cls_subClassOf cd) as [u|]; [|done]. simpl in Hsub. by rewrite Hsub.
Qed.

Lemma get_inherited_fuel_child fuel self class_name visited cd parent_uri :
  class_name ∉ visited →
  dict_get class_name (classes self) = Some cd →
  cls_subClassOf cd = Some parent_uri →
  str_truthy parent_uri = true →
  get_inherited_fuel (S fuel) self class_name visited
  = '(parent_props, visited') ←
      get_inherited_fuel fuel self (_extract_local_name parent_uri)
        ({[class_name]} ∪ visited);
    Some (dict_update (dict_update [] parent_props) (cls_properties cd),
          visited').
Proof.
  intros ? Hget Hsub Ht. simpl. rewrite decide_False by done.
  rewrite Hget, Hsub, Ht.
  by destruct (get_inherited_fuel _ _ _ _) as [[??]|].
Qed.

Lemma step_cases self class_name visited : step_case self class_name visited.
Proof.
  destruct (decide (class_name ∈ visited)); [by apply case_visited|].
  destruct (dict_get class_name (classes self)) as [cd|] eqn:Hget;
    [|by apply case_unknown].
  destruct (cls_subClassOf cd) as [u|] eqn:Hsub.
  - destruct (str_truthy u) eqn:Ht.
    + by eapply case_child.
    + eapply case_root; [done..|]. by rewrite Hsub.
  - eapply case_root; [done..|]. by rewrite Hsub.
Qed.

Lemma get_inherited_fuel_enough fuel self class_name visited :
  unvisited (classes self) visited < fuel →
  is_Some (get_inherited_fuel fuel self class_name visited).
Proof.
  revert class_name visited.
  induction fuel as [|fuel IH]; intros class_name visited Hlt; [lia|].
  destruct (step_cases self class_name visited)
    as [Hv|Hv Hg|cd Hv Hg Hs|cd u Hv Hg Hs Ht].
  - rewrite get_inherited_fuel_visited by done. by eexists.
  - rewrite get_inherited_fuel_unknown by done. by eexists.
  - erewrite get_inherited_fuel_root by done. by eexists.
  - erewrite get_inherited_fuel_child by done.
    destruct (IH (_extract_local_name u) ({[class_name]} ∪ visited))
      as [[props v'] ->].
    + pose proof (unvisited_add _ class_name visited cd Hv Hg). lia.
    + by eexists.
Qed.

Lemma get_inherited_fuel_mono fuel fuel' self class_name visited r :
  get_inherited_fuel fuel self class_name visited = Some r →
  fuel ≤ fuel' →
  get_inherited_fuel fuel' self class_name visited = Some r.
Proof.
  revert fuel' class_name visited r.
  induction fuel as [|fuel IH]; intros fuel' class_name visited r; [done|].
  destruct fuel' as [|fuel']; [lia|]. intros Hr Hle.
  destruct (step_cases self class_name visited) as [?|??|cd ???|cd u ????].
  - rewrite get_inherited_fuel_visited in * by done. done.
  - rewrite get_inherited_fuel_unknown in * by done. done.
  - erewrite get_inherited_fuel_root in * by done. done.
  - erewrite get_inherited_fuel_child in * by done.
    destruct (get_inherited_fuel fuel _ _ _) as [[props v']|] eqn:Hrec;
      [|done].
    rewrite (IH fuel' _ _ _ Hrec) by lia. done.
Qed.

(** ** Inheritance resolver: the visit log *)

Lemma visit_log_spec fuel self class_name visited d visited' :
  get_inherited_fuel fuel self class_name visited = Some (d, visited') →
  visited' = list_to_set (visit_log fuel self class_name visited) ∪ visited
  ∧ NoDup (visit_log fuel self class_name visited)
  ∧ ∀ x, x ∈ visit_log fuel self class_name visited → x ∉ visited.
Proof.
  revert class_name visited d visited'.
  induction fuel as [|fuel IH]; intros class_name visited d visited'; [done|].
  destruct (step_cases self class_name visited)
    as [Hv|Hv Hg|cd Hv Hg Hs|cd u Hv Hg Hs Ht].
  - rewrite get_inherited_fuel_visited by done. intros Heq; injection Heq as <- <-.
    simpl. rewrite decide_True by done. simpl.
    split_and!; [set_solver|constructor|]. intros x Hx. by apply elem_of_nil in Hx.
  - rewrite get_inherited_fuel_unknown by done. intros Heq; injection Heq as <- <-.
    simpl. rewrite decide_False by done. rewrite Hg. simpl.
    split_and!; [set_solver|apply NoDup_singleton|].
    intros x Hx. apply list_elem_of_singleton in Hx. by subst.
  - erewrite get_inherited_fuel_root by done. intros Heq; injection Heq as <- <-.
    assert (visit_log (S fuel) self class_name visited = [class_name]) as ->.
    { simpl. rewrite decide_False by done. rewrite Hg.
      destruct (cls_subClassOf cd) as [u|]; [|done].
      simpl in Hs. by rewrite Hs. }
    split_and!; [set_solver|apply NoDup_singleton|].
    intros x Hx. apply list_elem_of_singleton in Hx. by subst.
  - erewrite get_inherited_fuel_child by done.
    destruct (get_inherited_fuel fuel _ _ _) as [[props v']|] eqn:Hrec;
      [|done].
    simpl. intros Heq; injection Heq as <- <-.
    rewrite decide_False by done. rewrite Hg, Hs, Ht.
    destruct (IH _ _ _ _ Hrec) as (Hset & Hnd & Hfresh).
    split_and!.
    + rewrite Hset. set_solver.
    + apply NoDup_cons. split; [|done].
      intros Hin. apply Hfresh in Hin. set_solver.
    + intros x [->|Hx]%elem_of_cons; [done|].
      apply Hfresh in Hx. set_solver.
Qed.

(** ** Inheritance resolver: agreement with the overlay of the chain *)

Lemma overlay_wf chain : dict_wf (overlay chain).
Proof.
  destruct chain as [|cd chain]; simpl; [constructor|].
  revert cd. induction chain as [|cd' chain IH]; intros cd; simpl.
  - apply dict_update_wf. constructor.
  - apply dict_update_wf, IH.
Qed.

Lemma get_inherited_fuel_overlay fuel self class_name visited d visited' :
  get_inherited_fuel fuel self class_name visited = Some (d, visited') →
  d = overlay (superclass_chain fuel (classes self) class_name visited).
Proof.
  revert class_name visited d visited'.
  induction fuel as [|fuel IH]; intros class_name visited d visited'; [done|].
  destruct (step_cases self class_name visited)
    as [Hv|Hv Hg|cd Hv Hg Hs|cd u Hv Hg Hs Ht].
  - rewrite get_inherited_fuel_visited by done. intros Heq; injection Heq as <- <-.
    simpl. by rewrite decide_True.
  - rewrite get_inherited_fuel_unknown by done. intros Heq; injection Heq as <- <-.
    simpl. rewrite decide_False by done. by rewrite Hg.
  - erewrite get_inherited_fuel_root by done. intros Heq; injection Heq as <- <-.
    simpl. rewrite decide_False by done. rewrite Hg.
    destruct (cls_subClassOf cd) as [u|]; [|done].
    simpl in Hs. by rewrite Hs.
  - erewrite get_inherited_fuel_child by done.
    destruct (get_inherited_fuel fuel _ _ _) as [[props v']|] eqn:Hrec;
      [|done].
    simpl. intros Heq; injection Heq as <- <-.
    rewrite decide_False by done. rewrite Hg, Hs, Ht. simpl.
    rewrite (IH _ _ _ _ Hrec).
    by rewrite (dict_update_empty _ (overlay_wf _)).
Qed.

Lemma superclass_chain_mono fuel fuel' classes class_name seen :
  unvisited classes seen < fuel → fuel ≤ fuel' →
  superclass_chain fuel' classes class_name seen
  = superclass_chain fuel classes class_name seen.
Proof.
  revert fuel' class_name seen.
  induction fuel as [|fuel IH]; intros fuel' class_name seen Hlt Hle; [lia|].
  destruct fuel' as [|fuel']; [lia|]. simpl.
  destruct (decide (class_name ∈ seen)) as [|Hv]; [done|].
  destruct (dict_get class_name classes) as [cd|] eqn:Hg; [|done].
  destruct (cls_subClassOf cd) as [u|]; [|done].
  destruct (str_truthy u); [|done].
  f_equal. apply IH; [|lia].
  pose proof (unvisited_add classes class_name seen cd Hv Hg). lia.
Qed.

Lemma dict_get_overlay p chain :
  (∀ cd, cd ∈ chain → dict_wf (cls_properties cd)) →
  dict_get p (overlay chain) = nearest_definition p chain.
Proof.
  induction chain as [|cd chain IH]; intros Hwf; [done|].
  simpl. rewrite dict_get_update by (apply Hwf, list_elem_of_here).
  destruct (dict_get p (cls_properties cd)); [done|].
  apply IH. intros cd' Hin. by apply Hwf, list_elem_of_further.
Qed.

Lemma superclass_chain_elem fuel classes class_name seen cd :
  cd ∈ superclass_chain fuel classes class_name seen →
  ∃ n, (n, cd) ∈ classes.
Proof.
  revert class_name seen.
  induction fuel as [|fuel IH]; intros class_name seen; simpl.
  { intros H. by apply elem_of_nil in H. }
  case_decide. { intros H'. by apply elem_of_nil in H'. }
  destruct (dict_get class_name classes) as [cd0|] eqn:Hg.
  2:{ intros H'. by apply elem_of_nil in H'. }
  intros [->|Hin]%elem_of_cons.
  - exists class_name. by apply dict_get_Some_elem.
  - destruct (cls_subClassOf cd0) as [u|].
    2:{ by apply elem_of_nil in Hin. }
    destruct (str_truthy u). 2:{ by apply elem_of_nil in Hin. }
    by eapply IH.
Qed.

Lemma nearest_definition_split p near cd far r :
  (∀ c, c ∈ near → dict_get p (cls_properties c) = None) →
  dict_get p (cls_properties cd) = Some r →
  nearest_definition p (near ++ cd :: far) = Some r.
Proof.
  intros Hnear Hcd. induction near as [|c near IH]; simpl.
  - by rewrite Hcd.
  - rewrite (Hnear c) by apply list_elem_of_here.
    apply IH. intros c' Hin. by apply Hnear, list_elem_of_further.
Qed.

Lemma get_inherited_properties_overlay self class_name :
  _get_inherited_properties self class_name
  = overlay (superclass_chain (enough_fuel self) (classes self) class_name ∅).
Proof.
  unfold _get_inherited_properties.
  destruct (get_inherited_fuel_enough (enough_fuel self) self class_name ∅)
    as [[d v] Hd].
  { pose proof (unvisited_le_length (classes self) ∅). unfold enough_fuel. lia. }
  rewrite Hd. exact (get_inherited_fuel_overlay _ _ _ _ _ _ Hd).
Qed.

Lemma get_inherited_properties_wf self class_name :
  dict_wf (_get_inherited_properties self class_name).
Proof. rewrite get_inherited_properties_overlay. apply overlay_wf. Qed.

(** ** C2: the resolver terminates *)

(** C2.  For every registry (cyclic superclass links and links to unknown
    names included), every class name and every visiting set, the resolver
    returns with the fuel [enough_fuel] and with any larger fuel, always with
    the same result; the names it visits are pairwise distinct and were not
    in the visiting set, and the set it leaves is the visiting set extended
    by them.  A name already in the visiting set yields the empty mapping at
    once, and so does a name that is not a class of the registry. *)
Theorem resolver_terminates (self : Converter) (class_name : string)
    (visiting : gset string) :
  (∃ result visited',
      get_inherited_fuel (enough_fuel self) self class_name visiting
      = Some (result, visited')
      ∧ (∀ fuel, enough_fuel self ≤ fuel →
           get_inherited_fuel fuel self class_name visiting
           = Some (result, visited'))
      ∧ NoDup (visit_log (enough_fuel self) self class_name visiting)
      ∧ (∀ x, x ∈ visit_log (enough_fuel self) self class_name visiting →
              x ∉ visiting)
      ∧ visited'
        = list_to_set (visit_log (enough_fuel self) self class_name visiting)
          ∪ visiting)
  ∧ (class_name ∈ visiting →
     ∀ fuel, get_inherited_fuel (S fuel) self class_name visiting
             = Some ([], visiting))
  ∧ (class_name ∉ visiting →
     dict_get class_name (classes self) = None →
     ∀ fuel, get_inherited_fuel (S fuel) self class_name visiting
             = Some ([], {[class_name]} ∪ visiting)).
Proof.
  split_and!.
  - destruct (get_inherited_fuel_enough (enough_fuel self) self class_name
                visiting) as [[d v] Hd].
    { pose proof (unvisited_le_length (classes self) visiting).
      unfold enough_fuel. lia. }
    exists d, v. destruct (visit_log_spec _ _ _ _ _ _ Hd) as (Hset & Hnd & Hfresh).
    split_and!; try done.
    intros fuel Hle. by eapply get_inherited_fuel_mono.
  - intros Hin fuel. by apply get_inherited_fuel_visited.
  - intros Hnin Hget fuel. by apply get_inherited_fuel_unknown.
Qed.

(** On the cyclic schema: resolving [X] visits [X] then [Y] and stops at the
    second [X]; a visited name and an unknown name yield the empty
    mapping. *)
Lemma resolver_terminates_witness :
  (∃ result visited',
      get_inherited_fuel (enough_fuel cycle_schema) cycle_schema "X" ∅
      = Some (result, visited')
      ∧ visit_log (enough_fuel cycle_schema) cycle_schema "X" ∅ = ["X"; "Y"])
  ∧ get_inherited_fuel 1 cycle_schema "X" {["X"]} = Some ([], {["X"]})
  ∧ get_inherited_fuel 1 cycle_schema "Z" ∅ = Some ([], {["Z"]} ∪ ∅).
Proof.
  split_and!.
  - destruct (resolver_terminates cycle_schema "X" ∅)
      as [(result & visited' & Hres & _) _].
    exists result, visited'. split; [exact Hres | reflexivity].
  - apply (resolver_terminates cycle_schema "X" {["X"]}).
    apply elem_of_singleton. reflexivity.
  - apply (resolver_terminates cycle_schema "Z" ∅).
    + apply not_elem_of_empty.
    + reflexivity.
Defined.

(** ** C1: effective property sets *)

(** C1.  For every class name the resolver returns the overlay of the
    own-property mappings of the superclass chain, farthest ancestor first
    and the class's own mapping last; the chain does not depend on the
    fuel.  In a well-formed registry a property name resolves to the
    definition of the nearest class of the chain that declares it, so every
    property of the class or of an ancestor is present, and a descendant's
    definition wins over an ancestor's.  On the schema
    [C subClassOf B subClassOf A] with one property each, the effective set
    of [C] has all three; on the override schema [B] gets its own [p] and
    [A] keeps the datatype one. *)
Theorem effective_properties_overlay :
  (∀ (self : Converter) (class_name : string),
     let chain :=
       superclass_chain (enough_fuel self) (classes self) class_name ∅ in
     let effective := _get_inherited_properties self class_name in
     (∀ fuel, enough_fuel self ≤ fuel →
        superclass_chain fuel (classes self) class_name ∅ = chain)
     ∧ effective = overlay chain
     ∧ (∀ cd, dict_get class_name (classes self) = Some cd →
          ∃ ancestors,
            chain = cd :: ancestors
            ∧ effective = dict_update (overlay ancestors) (cls_properties cd))
     ∧ (registry_wf (classes self) →
        ∀ near cd far p r,
          chain = near ++ cd :: far →
          (∀ c, c ∈ near → dict_get p (cls_properties c) = None) →
          dict_get p (cls_properties cd) = Some r →
          dict_get p effective = Some r)
     ∧ (registry_wf (classes self) →
        ∀ p, is_Some (dict_get p effective)
             ↔ ∃ cd, cd ∈ chain ∧ is_Some (dict_get p (cls_properties cd))))
  ∧ dict_keys (_get_inherited_properties chain_schema "C")
    = ["A.a"; "B.b"; "C.c"]
  ∧ ref_range <$> dict_get "p" (_get_inherited_properties override_schema "B")
    = Some (Some "http://ex.org/s#A")
  ∧ ref_range <$> dict_get "p" (_get_inherited_properties override_schema "A")
    = Some (Some "http://www.w3.org/2001/XMLSchema#string").
Proof.
  split; [|by vm_compute].
  intros self class_name chain effective.
  assert (Heff : effective = overlay chain)
    by apply get_inherited_properties_overlay.
  assert (Hwf : registry_wf (classes self) →
                ∀ cd, cd ∈ chain → dict_wf (cls_properties cd)).
  { intros [_ Hreg] cd Hin.
    destruct (superclass_chain_elem _ _ _ _ _ Hin) as [n Hn].
    rewrite Forall_forall in Hreg. apply (Hreg (n, cd) Hn). }
  split_and!.
  - intros fuel Hle. apply superclass_chain_mono; [|done].
    pose proof (unvisited_le_length (classes self) ∅). unfold enough_fuel. lia.
  - done.
  - intros cd Hget. subst chain. unfold enough_fuel in *. simpl in *.
    rewrite decide_False in * by apply not_elem_of_empty.
    rewrite Hget in *. eexists. split; [done|]. by rewrite Heff.
  - intros Hreg near cd far p r Hchain Hnear Hcd.
    rewrite Heff, dict_get_overlay by auto.
    rewrite Hchain. by apply nearest_definition_split.
  - intros Hreg p. rewrite Heff, dict_get_overlay by auto.
    specialize (Hwf Hreg). clear Heff. induction chain as [|c chain IH]; simpl.
    + split; [by intros [? ?]|]. intros (cd & Hin & _). by apply elem_of_nil in Hin.
    + destruct (dict_get p (cls_properties c)) as [r|] eqn:Hc.
      * split; [|by eexists]. intros _. exists c.
        split; [apply list_elem_of_here|]. rewrite Hc. by eexists.
      * rewrite IH by (intros cd' Hin; by apply Hwf, list_elem_of_further).
        split.
        -- intros (cd & Hin & Hsome). exists cd.
           split; [by apply list_elem_of_further|done].
        -- intros (cd & [->|Hin]%elem_of_cons & Hsome).
           ++ rewrite Hc in Hsome. by destruct Hsome.
           ++ by exists cd.
Qed.

(** ** Strings *)

Lemma prefix_spec needle hay :
  String.prefix needle hay = true ↔ ∃ post, hay = needle +:+ post.
Proof.
  revert hay. induction needle as [|a needle IH]; intros hay.
  - split; [|by destruct hay]. intros _. by exists hay.
  - destruct hay as [|b hay]; simpl.
    + split; [done|]. by intros [post ?].
    + destruct (ascii_dec a b) as [->|Hne].
      * rewrite IH. split; intros [post Hpost]; exists post.
        -- by rewrite Hpost.
        -- by injection Hpost.
      * split; [done|]. intros [post Hpost]. by injection Hpost.
Qed.

Lemma str_contains_spec needle hay :
  str_contains needle hay = true ↔ is_substring needle hay.
Proof.
  unfold is_substring. induction hay as [|b hay IH].
  - cbn [str_contains]. rewrite orb_false_r, prefix_spec. split.
    + intros [post Hpost]. by exists EmptyString, post.
    + intros (pre & post & Heq). destruct pre; [by exists post|done].
  - cbn [str_contains]. rewrite orb_true_iff, IH, prefix_spec. split.
    + intros [[post Hpost]|(pre & post & Heq)].
      * by exists EmptyString, post.
      * exists (String b pre), post. by rewrite Heq.
    + intros (pre & post & Heq). destruct pre as [|a pre].
      * left. by exists post.
      * right. exists pre, post. by injection Heq.
Qed.

Lemma str_split_spec c s :
  ∃ h r, str_split c s = h :: r
    ∧ (str_mem c s = false → h = s ∧ r = [])
    ∧ (str_mem c s = true →
       r ≠ [] ∧ ∀ d, ∃ pre, s = pre +:+ String c (List.last r d)
                            ∧ str_mem c (List.last r d) = false).
Proof.
  induction s as [|a t (h & r & Hsplit & Hno & Hyes)]; simpl.
  { exists EmptyString, []. by split_and!. }
  rewrite Hsplit. destruct (decide (a = c)) as [->|Hne].
  - exists EmptyString, (h :: r). split_and!; [done..|].
    intros _. split; [done|]. intros d.
    destruct (str_mem c t) eqn:Hmem.
    + destruct (Hyes eq_refl) as [Hr Hlast]. destruct (Hlast d) as (pre & -> & ?).
      exists (String c pre). split; [|by destruct r].
      destruct r; [done|]. done.
    + destruct (Hno eq_refl) as [-> ->]. by exists EmptyString.
  - exists (String a h), r. split_and!; [done| |].
    + intros Hmem. destruct (Hno Hmem) as [-> ->]. done.
    + intros Hmem. destruct (Hyes Hmem) as [Hr Hlast]. split; [done|].
      intros d. destruct (Hlast d) as (pre & -> & ?). by exists (String a pre).
Qed.

Lemma extract_local_name_spec uri :
  (str_mem "#" uri = true →
   ∃ pre, uri = pre +:+ String "#" (_extract_local_name uri)
          ∧ str_mem "#" (_extract_local_name uri) = false)
  ∧ (str_mem "#" uri = false → str_mem "/" uri = true →
     ∃ pre, uri = pre +:+ String "/" (_extract_local_name uri)
            ∧ str_mem "/" (_extract_local_name uri) = false)
  ∧ (str_mem "#" uri = false → str_mem "/" uri = false →
     _extract_local_name uri = uri).
Proof.
  unfold _extract_local_name. split_and!.
  - intros Hmem. rewrite Hmem.
    destruct (str_split_spec "#" uri) as (h & r & -> & _ & Hyes).
    destruct (Hyes Hmem) as [Hr Hlast]. destruct (Hlast uri) as (pre & ? & ?).
    exists pre. by destruct r.
  - intros Hno Hmem. rewrite Hno, Hmem.
    destruct (str_split_spec "/" uri) as (h & r & -> & _ & Hyes).
    destruct (Hyes Hmem) as [Hr Hlast]. destruct (Hlast uri) as (pre & ? & ?).
    exists pre. by destruct r.
  - intros Hno Hno'. by rewrite Hno, Hno'.
Qed.

Lemma str_app_length a s :
  String.length (a +:+ s) = String.length a + String.length s.
Proof. induction a as [|c a IH]; [done|]. cbn. by rewrite <- IH. Qed.

Lemma str_app_inv_tail a b s : a +:+ s = b +:+ s → a = b.
Proof.
  revert b. induction a as [|c a IH]; intros [|c' b] Heq; [done| | |].
  - apply (f_equal String.length) in Heq.
    rewrite !str_app_length in Heq. cbn in Heq. lia.
  - apply (f_equal String.length) in Heq.
    rewrite !str_app_length in Heq. cbn in Heq. lia.
  - change (String c (a +:+ s) = String c' (b +:+ s)) in Heq.
    injection Heq as -> Heq. f_equal. by apply IH.
Qed.

Lemma rstrip_spec c s :
  (∃ n, s = rstrip c s +:+ str_repeat c n) ∧ ¬ ends_with c (rstrip c s).
Proof.
  induction s as [|a t [[n Hn] Hend]]; simpl.
  { split; [by exists 0|]. intros [[|??] ?]; done. }
  destruct (rstrip c t) as [|b t'] eqn:Hstrip.
  - simpl in Hn. destruct (decide (a = c)) as [->|Hne].
    + split; [exists (S n); by rewrite Hn|]. intros [[|??] ?]; done.
    + split; [exists n; by rewrite Hn|].
      intros [[|? [|??]] Heq]; unfold String.append in Heq; simplify_eq/=.
  - split; [exists n; by rewrite Hn|].
    intros [[|a' pre] Heq]; [done|]. injection Heq as -> Heq.
    apply Hend. by exists pre.
Qed.

(** ** Class context documents *)

Lemma dict_get_update_notin {V} k (d o : dict V) :
  k ∉ o.*1 → dict_get k (dict_update d o) = dict_get k d.
Proof.
  revert d. induction o as [|[k0 v0] o IH]; intros d Hk; [done|].
  rewrite fmap_cons in Hk. apply not_elem_of_cons in Hk as [Hne Hk].
  rewrite dict_update_cons, IH by done. apply dict_get_set_ne. by intros ->.
Qed.

Lemma prop_loop_eq (header : dict json) all_properties :
  fold_left
    (λ context '(prop_full_name, prop_data),
       dict_set ("cim:" +:+ prop_full_name) (JObject (prop_context prop_data))
         context)
    all_properties header
  = dict_update header (prop_entries all_properties).
Proof.
  induction all_properties as [|[p pd] props IH] in header |- *; [done|].
  cbn [fold_left]. rewrite IH. reflexivity.
Qed.

Lemma build_class_context_eq self class_name class_data all_properties :
  _build_class_context self class_name class_data all_properties
  = dict_update (class_header self class_data) (prop_entries all_properties).
Proof. apply prop_loop_eq. Qed.

Lemma prop_entries_keys all_properties :
  (prop_entries all_properties).*1 = String.app "cim:" <$> all_properties.*1.
Proof.
  induction all_properties as [|[p pd] props IH]; [done|].
  cbn. f_equal. apply IH.
Qed.

Lemma prop_entries_wf all_properties :
  dict_wf all_properties → dict_wf (prop_entries all_properties).
Proof.
  unfold dict_wf. rewrite prop_entries_keys. apply NoDup_fmap_2, _.
Qed.

Lemma prop_entries_get p all_properties :
  dict_get ("cim:" +:+ p) (prop_entries all_properties)
  = (λ pd, JObject (prop_context pd)) <$> dict_get p all_properties.
Proof.
  induction all_properties as [|[p0 pd0] props IH]; [done|].
  cbn [prop_entries map dict_get]. fold (prop_entries props).
  destruct (decide (p0 = p)) as [->|Hne].
  - by rewrite decide_True.
  - rewrite decide_False; [done|]. intros Heq. by apply (inj _) in Heq.
Qed.

(** The keys of the header are not property keys. *)
Lemma class_header_no_prop self class_data p :
  dict_get ("cim:" +:+ p) (class_header self class_data) = None.
Proof.
  unfold class_header, _build_class_context.
  destruct (cls_comment class_data) as [c|], (cls_subClassOf class_data) as [u|];
    try destruct (str_truthy c); try destruct (str_truthy u); reflexivity.
Qed.

Lemma prop_entries_key_inv k all_properties :
  k ∈ (prop_entries all_properties).*1 → ∃ p, k = "cim:" +:+ p.
Proof.
  rewrite prop_entries_keys. intros (p & -> & _)%list_elem_of_fmap. by exists p.
Qed.

(** What the body of the property loop puts under ["@id"] and ["@type"]. *)
Lemma prop_context_id prop_data :
  dict_get "@id" (prop_context prop_data) = Some (JString (ref_id prop_data)).
Proof.
  unfold prop_context.
  destruct (ref_range prop_data) as [r|], (ref_label prop_data) as [l|],
    (ref_comment prop_data) as [c|];
    try destruct (str_truthy r); try destruct (str_contains _ _);
    try destruct (str_truthy l); try destruct (str_truthy c); reflexivity.
Qed.

Lemma prop_context_type prop_data :
  dict_get "@type" (prop_context prop_data)
  = match ref_range prop_data with
    | Some range_uri =>
        if str_truthy range_uri then
          Some (JString (if str_contains "XMLSchema" range_uri
                         then "xsd:" +:+ _extract_local_name range_uri
                         else "@id"))
        else None
    | None => None
    end.
Proof.
  unfold prop_context.
  destruct (ref_range prop_data) as [r|], (ref_label prop_data) as [l|],
    (ref_comment prop_data) as [c|];
    try destruct (str_truthy r); try destruct (str_contains _ _);
    try destruct (str_truthy l); try destruct (str_truthy c); reflexivity.
Qed.

Lemma build_class_context_prop self class_name class_data all_properties p :
  dict_wf all_properties →
  dict_get ("cim:" +:+ p)
    (_build_class_context self class_name class_data all_properties)
  = (λ pd, JObject (prop_context pd)) <$> dict_get p all_properties.
Proof.
  intros Hwf. rewrite build_class_context_eq.
  rewrite dict_get_update by by apply prop_entries_wf.
  rewrite prop_entries_get, class_header_no_prop.
  by destruct (dict_get p all_properties).
Qed.

Lemma build_class_context_header self class_name class_data all_properties k :
  (∀ p, k ≠ "cim:" +:+ p) →
  dict_get k (_build_class_context self class_name class_data all_properties)
  = dict_get k (class_header self class_data).
Proof.
  intros Hk. rewrite build_class_context_eq. apply dict_get_update_notin.
  intros [p ->]%prop_entries_key_inv. by apply (Hk p).
Qed.

Lemma str_truthy_ne s : s ≠ EmptyString → str_truthy s = true.
Proof. by destruct s. Qed.

(** ** C3: datatype detection *)

(** C3.  A property of the effective set whose range URI is present is
    emitted under [cim:<name>] as an object whose ["@type"] is ["xsd:"]
    followed by the local name of the range URI when ["XMLSchema"] occurs
    in the range URI, and ["@id"] otherwise; the local name is what follows
    the last ['#'], or else the last ['/'], or else the whole URI. *)
Theorem datatype_detection (self : Converter) (class_name : string)
    (class_data : ClassData) (all_properties : dict PropertyRef)
    (p : string) (prop_data : PropertyRef) (range_uri : string) :
  dict_wf all_properties →
  dict_get p all_properties = Some prop_data →
  ref_range prop_data = Some range_uri →
  range_uri ≠ EmptyString →
  ∃ entry,
    dict_get ("cim:" +:+ p)
      (_build_class_context self class_name class_data all_properties)
    = Some (JObject entry)
    ∧ (is_substring "XMLSchema" range_uri →
       dict_get "@type" entry
       = Some (JString ("xsd:" +:+ _extract_local_name range_uri)))
    ∧ (¬ is_substring "XMLSchema" range_uri →
       dict_get "@type" entry = Some (JString "@id"))
    ∧ (str_mem "#" range_uri = true →
       ∃ pre, range_uri = pre +:+ String "#" (_extract_local_name range_uri)
              ∧ str_mem "#" (_extract_local_name range_uri) = false)
    ∧ (str_mem "#" range_uri = false → str_mem "/" range_uri = true →
       ∃ pre, range_uri = pre +:+ String "/" (_extract_local_name range_uri)
              ∧ str_mem "/" (_extract_local_name range_uri) = false)
    ∧ (str_mem "#" range_uri = false → str_mem "/" range_uri = false →
       _extract_local_name range_uri = range_uri).
Proof.
  intros Hwf Hget Hrange Hne. exists (prop_context prop_data).
  rewrite build_class_context_prop, Hget by done.
  rewrite prop_context_type, Hrange, str_truthy_ne by done.
  split_and!; [done| | |apply extract_local_name_spec..].
  - intros Hsub%str_contains_spec. by rewrite Hsub.
  - intros Hsub. destruct (str_contains _ _) eqn:Hc; [|done].
    by apply str_contains_spec in Hc.
Qed.

(** ** C10: properties without a range *)

(** C10.  A property of the effective set that has no range is emitted
    under [cim:<name>] as an object with an ["@id"] member (the property's
    URI) and no ["@type"] member. *)
Theorem rangeless_property_untyped (self : Converter) (class_name : string)
    (class_data : ClassData) (all_properties : dict PropertyRef)
    (p : string) (prop_data : PropertyRef) :
  dict_wf all_properties →
  dict_get p all_properties = Some prop_data →
  ref_range prop_data = None →
  ∃ entry,
    dict_get ("cim:" +:+ p)
      (_build_class_context self class_name class_data all_properties)
    = Some (JObject entry)
    ∧ dict_get "@id" entry = Some (JString (ref_id prop_data))
    ∧ dict_get "@type" entry = None.
Proof.
  intros Hwf Hget Hrange. exists (prop_context prop_data).
  rewrite build_class_context_prop, Hget by done.
  by rewrite prop_context_id, prop_context_type, Hrange.
Qed.

(** ** Witnesses on the example schemas *)

(** On the override schema the chain of [B] is [B], [A]; [B] declares [p],
    so [p] resolves to [B]'s definition. *)
Lemma effective_properties_overlay_witness :
  registry_wf (classes override_schema)
  ∧ ref_id <$> dict_get "p" (_get_inherited_properties override_schema "B")
    = Some "http://ex.org/b#p".
Proof.
  assert (Hwf : registry_wf (classes override_schema)).
  { compute_done. }
  split; [exact Hwf|].
  destruct effective_properties_overlay as [Hall _].
  destruct (Hall override_schema "B") as (_ & _ & Hown & Hnear & _).
  destruct (dict_get "B" (classes override_schema)) as [cd|] eqn:Hcd;
    [|vm_compute in Hcd; discriminate].
  destruct (Hown cd eq_refl) as (ancestors & Hchain & _).
  destruct (dict_get "p" (cls_properties cd)) as [r|] eqn:Hp.
  - rewrite (Hnear Hwf [] cd ancestors "p" r Hchain); [| |exact Hp].
    + vm_compute in Hcd. injection Hcd as <-. vm_compute in Hp.
      injection Hp as <-. reflexivity.
    + intros c Hc. by apply elem_of_nil in Hc.
  - vm_compute in Hcd. injection Hcd as <-. vm_compute in Hp. discriminate.
Defined.

Lemma datatype_detection_witness :
  ∃ doc,
    dict_get "A.jsonld" (class_contexts override_schema) = Some doc
    ∧ ∃ entry,
        dict_get "cim:p" doc = Some (JObject entry)
        ∧ dict_get "@type" entry = Some (JString "xsd:string").
Proof.
  eexists. split; [vm_compute; reflexivity|].
  destruct (datatype_detection override_schema "A"
              {| cls_id := "http://ex.org/s#A"; cls_label := "A";
                 cls_comment := None; cls_subClassOf := None;
                 cls_properties :=
                   [("p", {| ref_id := "http://ex.org/a#p";
                             ref_label := None; ref_comment := None;
                             ref_range :=
                               Some "http://www.w3.org/2001/XMLSchema#string" |})] |}
              (_get_inherited_properties override_schema "A")
              "p"
              {| ref_id := "http://ex.org/a#p";
                 ref_label := None; ref_comment := None;
                 ref_range := Some "http://www.w3.org/2001/XMLSchema#string" |}
              "http://www.w3.org/2001/XMLSchema#string")
    as (entry & Hentry & Hxsd & _).
  - compute_done.
  - vm_compute. reflexivity.
  - reflexivity.
  - discriminate.
  - exists entry. split; [exact Hentry|].
    rewrite Hxsd; [reflexivity|].
    by exists "http://www.w3.org/2001/", "#string".
Defined.

Lemma rangeless_property_untyped_witness :
  ∃ entry,
    dict_get "cim:C.c"
      (_build_class_context chain_schema "C"
         {| cls_id := "http://ex.org/s#C"; cls_label := "C";
            cls_comment := None; cls_subClassOf := Some "http://ex.org/s#B";
            cls_properties := [] |}
         (_get_inherited_properties chain_schema "C"))
    = Some (JObject entry)
    ∧ dict_get "@id" entry = Some (JString "http://ex.org/s#C.c")
    ∧ dict_get "@type" entry = None.
Proof.
  apply (rangeless_property_untyped chain_schema "C" _
           (_get_inherited_properties chain_schema "C") "C.c"
           {| ref_id := "http://ex.org/s#C.c"; ref_label := None;
              ref_comment := None; ref_range := None |}).
  - compute_done.
  - vm_compute. reflexivity.
  - reflexivity.
Defined.

(** ** Model extractor *)

Lemma extract_class_graph self u : graph (extract_class self u) = graph self.
Proof. reflexivity. Qed.

Lemma extract_class_config self u :
  base_uri (extract_class self u) = base_uri self
  ∧ context_base_url (extract_class self u) = context_base_url self
  ∧ properties (extract_class self u) = properties self.
Proof. done. Qed.

Lemma extract_class_classes self u :
  classes (extract_class self u)
  = dict_set (_extract_local_name u) (class_of_subject (graph self) u)
      (classes self).
Proof. reflexivity. Qed.

Lemma fold_extract_class_inv l self :
  graph (fold_left extract_class l self) = graph self
  ∧ base_uri (fold_left extract_class l self) = base_uri self
  ∧ context_base_url (fold_left extract_class l self) = context_base_url self
  ∧ properties (fold_left extract_class l self) = properties self
  ∧ (dict_wf (classes self) → dict_wf (classes (fold_left extract_class l self))).
Proof.
  induction l as [|u l IH] in self |- *; [by split_and!; auto|].
  cbn [fold_left].
  destruct (IH (extract_class self u)) as (-> & -> & -> & -> & Hwf).
  split_and!; try done.
  intros Hd. apply Hwf. rewrite extract_class_classes. by apply dict_set_wf.
Qed.

Lemma fold_extract_class_get l self n :
  dict_get n (classes (fold_left extract_class l self))
  = match last_named n l with
    | Some u => Some (class_of_subject (graph self) u)
    | None => dict_get n (classes self)
    end.
Proof.
  unfold last_named.
  induction l as [|u l IH] using rev_ind in self |- *; [done|].
  rewrite fold_left_app, filter_app. cbn [fold_left].
  rewrite extract_class_classes, dict_get_set.
  destruct (fold_extract_class_inv l self) as (-> & _).
  rewrite filter_cons, filter_nil.
  destruct (decide (_extract_local_name u = n)) as [Heq|Hne].
  - by rewrite last_snoc.
  - rewrite app_nil_r. apply IH.
Qed.

Lemma last_named_Some n l u :
  last_named n l = Some u → u ∈ l ∧ _extract_local_name u = n.
Proof.
  unfold last_named. intros Hlast.
  assert (u ∈ filter (λ u, _extract_local_name u = n) l) as Hin.
  { apply last_Some in Hlast as [l' ->]. apply elem_of_app. right.
    apply list_elem_of_here. }
  by apply list_elem_of_filter in Hin as [? ?].
Qed.

Lemma dict_set_Forall {V} (P : string * V → Prop) k v (d : dict V) :
  P (k, v) → Forall P d → Forall P (dict_set k v d).
Proof.
  intros Hkv. induction 1 as [|[k0 v0] d Hx Hd IH]; simpl.
  - by repeat constructor.
  - case_decide; constructor; auto.
Qed.

(** One property subject: what it does to the two registries. *)
Lemma extract_property_graph self u : graph (extract_property self u) = graph self.
Proof.
  unfold extract_property.
  destruct (_get_domain self u) as [d|]; [|done].
  destruct (str_truthy d); [|done].
  by destruct (dict_get _ _).
Qed.

Lemma extract_property_config self u :
  base_uri (extract_property self u) = base_uri self
  ∧ context_base_url (extract_property self u) = context_base_url self.
Proof.
  unfold extract_property.
  destruct (_get_domain self u) as [d|]; [|done].
  destruct (str_truthy d); [|done].
  by destruct (dict_get _ _).
Qed.

Lemma extract_property_properties self u :
  properties (extract_property self u)
  = dict_set (_extract_local_name u) (property_of_subject (graph self) u)
      (properties self).
Proof.
  unfold extract_property, property_of_subject, _get_domain, _get_label,
    _get_comment, _get_range.
  destruct (str_or_none (value (graph self) u RDFS_domain)) as [d|]; [|done].
  destruct (str_truthy d); [|done].
  by destruct (dict_get _ _).
Qed.

Lemma str_or_none_Some x d :
  str_or_none x = Some d ↔
  ∃ node, x = Some node ∧ node_bool node = true ∧ node_str node = d.
Proof.
  unfold str_or_none. destruct x as [node|].
  - destruct (node_bool node) eqn:Hb.
    + split; [intros [= <-]; by exists node|].
      by intros (node' & [= <-] & _ & <-).
    + split; [done|]. intros (node' & [= <-] & ? & _). congruence.
  - split; [done|]. by intros (node & ? & _).
Qed.

Lemma when_truthy_Some o d :
  when_truthy o = Some d ↔ o = Some d ∧ str_truthy d = true.
Proof.
  unfold when_truthy. destruct o as [s|]; cbn.
  - destruct (str_truthy s) eqn:Hs.
    + split; [intros [= <-]; by split|]. by intros [? _].
    + split; [done|]. intros [[= <-] ?]. congruence.
  - split; [done|]. by intros [? _].
Qed.


(** The class registry after one property subject: either unchanged, or the
    property is attached to the class its domain names. *)
Lemma extract_property_classes self u :
  (¬ attachable (graph self) (dict_keys (classes self)) u
   ∧ classes (extract_property self u) = classes self)
  ∨ (∃ d cd,
       str_or_none (value (graph self) u RDFS_domain) = Some d
       ∧ str_truthy d = true
       ∧ dict_get (_extract_local_name d) (classes self) = Some cd
       ∧ classes (extract_property self u)
         = dict_set (_extract_local_name d)
             (attach (_extract_local_name u)
                {| ref_id := u;
                   ref_label := _get_label self u;
                   ref_comment := _get_comment self u;
                   ref_range := _get_range self u |} cd)
             (classes self)).
Proof.
  unfold extract_property, _get_domain.
  destruct (str_or_none (value (graph self) u RDFS_domain)) as [d|] eqn:Hd.
  2:{ left. split; [|done]. intros (d & Hd' & _). congruence. }
  destruct (str_truthy d) eqn:Ht.
  2:{ left. split; [|done]. intros (d' & Hd' & Ht' & _). congruence. }
  cbn [classes set_properties].
  destruct (dict_get (_extract_local_name d) (classes self)) as [cd|] eqn:Hcd.
  - right. by exists d, cd.
  - left. split; [|done]. intros (d' & Hd' & _ & Hin). simplify_eq.
    apply dict_get_None in Hcd. done.
Qed.

Lemma extract_property_classes' self u :
  (¬ attachable (graph self) (dict_keys (classes self)) u
   ∧ classes (extract_property self u) = classes self)
  ∨ (attachable (graph self) (dict_keys (classes self)) u
     ∧ ∃ k cd,
       dict_get k (classes self) = Some cd
       ∧ classes (extract_property self u)
         = dict_set k
             (attach (_extract_local_name u) (ref_of_subject (graph self) u) cd)
             (classes self)).
Proof.
  destruct (extract_property_classes self u)
    as [?|(d & cd & Hd & Ht & Hcd & ->)]; [by left|right].
  split; [|by eauto].
  exists d. split_and!; [done..|]. apply dict_get_is_Some. by eexists.
Qed.

Lemma fold_extract_property_inv g names uris l self :
  graph self = g → dict_keys (classes self) = names →
  (∀ u, u ∈ l → u ∈ uris) →
  graph (fold_left extract_property l self) = g
  ∧ base_uri (fold_left extract_property l self) = base_uri self
  ∧ context_base_url (fold_left extract_property l self) = context_base_url self
  ∧ dict_keys (classes (fold_left extract_property l self)) = names
  ∧ (∀ n, header_of <$> dict_get n (classes (fold_left extract_property l self))
          = header_of <$> dict_get n (classes self))
  ∧ (Forall (λ kv, dict_wf (cls_properties kv.2)) (classes self) →
     Forall (λ kv, dict_wf (cls_properties kv.2))
       (classes (fold_left extract_property l self)))
  ∧ (Forall (λ kv, Forall (attached_from g names uris) (cls_properties kv.2))
       (classes self) →
     Forall (λ kv, Forall (attached_from g names uris) (cls_properties kv.2))
       (classes (fold_left extract_property l self))).
Proof.
  induction l as [|u l IH] in self |- *; intros Hg Hnames Hsub.
  { by split_and!. }
  cbn [fold_left].
  assert (Hu : u ∈ uris) by apply Hsub, list_elem_of_here.
  assert (Hsub' : ∀ u', u' ∈ l → u' ∈ uris)
    by (intros; by apply Hsub, list_elem_of_further).
  destruct (extract_property_config self u) as [Hb Hc].
  pose proof (extract_property_graph self u) as Hg'.
  destruct (extract_property_classes' self u)
    as [[_ Hsame]|(Hatt & k & cd & Hcd & Hset)].
  - destruct (IH (extract_property self u)) as (? & -> & -> & ? & Hh & Hw & Ha);
      [congruence|by rewrite Hsame|done|].
    rewrite Hsame in Hh, Hw, Ha. by split_and!.
  - assert (Hk : k ∈ (classes self).*1) by (apply dict_get_is_Some; by eexists).
    destruct (IH (extract_property self u)) as (? & -> & -> & ? & Hh & Hw & Ha);
      [congruence| |done|].
    { rewrite Hset. unfold dict_keys in *. by rewrite dict_set_keys_present. }
    apply dict_get_Some_elem in Hcd as Hin.
    split_and!; try done.
    + intros n. rewrite Hh, Hset, dict_get_set.
      case_decide; [|done]. subst. by rewrite Hcd.
    + intros Hwf. apply Hw. rewrite Hset. apply dict_set_Forall; [|done].
      rewrite Forall_forall in Hwf. apply dict_set_wf, (Hwf (k, cd) Hin).
    + intros Hatt'. apply Ha. rewrite Hset. apply dict_set_Forall; [|done].
      rewrite Forall_forall in Hatt'. cbn.
      apply dict_set_Forall; [|apply (Hatt' (k, cd) Hin)].
      exists u. subst. by split_and!.
Qed.

Lemma fold_extract_property_get l self n :
  dict_get n (properties (fold_left extract_property l self))
  = match last_named n l with
    | Some u => Some (property_of_subject (graph self) u)
    | None => dict_get n (properties self)
    end.
Proof.
  unfold last_named.
  induction l as [|u l IH] using rev_ind in self |- *; [done|].
  rewrite fold_left_app, filter_app. cbn [fold_left].
  rewrite extract_property_properties, dict_get_set.
  destruct (fold_extract_property_inv (graph self) (dict_keys (classes self))
              l l self) as (-> & _); [done..|].
  rewrite filter_cons, filter_nil.
  destruct (decide (_extract_local_name u = n)) as [Heq|Hne].
  - by rewrite last_snoc.
  - rewrite app_nil_r. apply IH.
Qed.

(** The registries [convert] hands to the emitter. *)
Lemma extracted_spec g base url :
  let self := extracted g (__init__ base url) in
  let names := dict_keys (classes self) in
  graph self = g
  ∧ base_uri self = base
  ∧ context_base_url self = context_base_url (__init__ base url)
  ∧ registry_wf (classes self)
  ∧ (∀ n, header_of <$> dict_get n (classes self)
          = (λ u, header_of (class_of_subject g u))
            <$> last_named n (class_subjects g))
  ∧ (∀ n, dict_get n (properties self)
          = property_of_subject g <$> last_named n (property_subjects g))
  ∧ Forall (λ kv, Forall (attached_from g names (property_subjects g))
                    (cls_properties kv.2)) (classes self).
Proof.
  intros self names. subst self names. unfold extracted.
  set (s0 := load_schemas g (__init__ base url)).
  set (s1 := extract_classes s0).
  unfold extract_properties, extract_classes in *.
  destruct (fold_extract_class_inv (class_subjects (graph s0)) s0)
    as (Hg1 & Hb1 & Hc1 & Hp1 & Hwf1).
  fold s1 in Hg1, Hb1, Hc1, Hp1, Hwf1.
  assert (Hprops1 : Forall (λ kv, cls_properties kv.2 = []) (classes s1)).
  { subst s1. generalize (class_subjects (graph s0)).
    intros l. assert (Forall (λ kv, cls_properties kv.2 = []) (classes s0))
      as H0 by constructor.
    revert H0. generalize s0. clear.
    induction l as [|u l IH]; intros s H0; [done|]. cbn [fold_left].
    apply IH. rewrite extract_class_classes. by apply dict_set_Forall. }
  destruct (fold_extract_property_inv g (dict_keys (classes s1))
              (property_subjects (graph s1)) (property_subjects (graph s1)) s1)
    as (Hg2 & Hb2 & Hc2 & Hk2 & Hh2 & Hw2 & Ha2); [by rewrite Hg1|done..|].
  split_and!.
  - done.
  - by rewrite Hb2, Hb1.
  - by rewrite Hc2, Hc1.
  - split.
    + unfold dict_wf. unfold dict_keys in Hk2. rewrite Hk2. apply Hwf1. constructor.
    + apply Hw2. eapply Forall_impl; [exact Hprops1|].
      intros kv ->. constructor.
  - intros n. rewrite Hh2. subst s1. rewrite fold_extract_class_get.
    change (graph s0) with g. by destruct (last_named n (class_subjects g)).
  - intros n. rewrite fold_extract_property_get, Hg1, Hp1.
    change (graph s0) with g. by destruct (last_named n (property_subjects g)).
  - rewrite Hk2, Hg1. rewrite Hg1 in Ha2. change (graph s0) with g in *.
    apply Ha2.
    eapply Forall_impl; [exact Hprops1|]. intros kv ->. constructor.
Qed.

(** ** C7: the fixed members of a class context *)

Ltac not_prop_key :=
  let p := fresh "p" in
  let H := fresh "H" in
  intros p H; cbv in H; discriminate H.

Lemma class_header_fields self class_data :
  dict_get "@id" (class_header self class_data)
  = Some (JString (cls_id class_data))
  ∧ dict_get "@type" (class_header self class_data)
    = Some (JString "rdfs:Class")
  ∧ dict_get "rdfs:label" (class_header self class_data)
    = Some (JString (cls_label class_data))
  ∧ dict_get "rdfs:comment" (class_header self class_data)
    = JString <$> when_truthy (cls_comment class_data)
  ∧ dict_get "rdfs:subClassOf" (class_header self class_data)
    = (λ u, JObject [("@id", JString u); ("@type", JString "@id")])
      <$> when_truthy (cls_subClassOf class_data).
Proof.
  unfold class_header, _build_class_context, when_truthy.
  destruct (cls_comment class_data) as [c|], (cls_subClassOf class_data) as [u|];
    simpl; try destruct (str_truthy c); try destruct (str_truthy u);
    by split_and!.
Qed.

Lemma build_class_context_fields self class_name class_data all_properties :
  let doc := _build_class_context self class_name class_data all_properties in
  dict_get "@id" doc = Some (JString (cls_id class_data))
  ∧ dict_get "@type" doc = Some (JString "rdfs:Class")
  ∧ dict_get "rdfs:label" doc = Some (JString (cls_label class_data))
  ∧ dict_get "rdfs:comment" doc = JString <$> when_truthy (cls_comment class_data)
  ∧ dict_get "rdfs:subClassOf" doc
    = (λ u, JObject [("@id", JString u); ("@type", JString "@id")])
      <$> when_truthy (cls_subClassOf class_data).
Proof.
  intros doc. subst doc.
  rewrite !build_class_context_header by not_prop_key.
  apply class_header_fields.
Qed.

Lemma class_contexts_elem self file doc :
  (file, doc) ∈ class_contexts self ↔
  ∃ class_name class_data,
    (class_name, class_data) ∈ classes self
    ∧ file = class_name +:+ ".jsonld"
    ∧ doc = _build_class_context self class_name class_data
              (_get_inherited_properties self class_name).
Proof.
  unfold class_contexts. rewrite list_elem_of_fmap. split.
  - intros ([n cd] & Heq & Hin). injection Heq as -> ->. by exists n, cd.
  - intros (n & cd & Hin & -> & ->). by exists (n, cd).
Qed.

(** Every class of the extracted registry is the descriptor of the last
    class subject with its local name, up to the attached properties. *)
Lemma extracted_class g base url class_name class_data :
  (class_name, class_data) ∈ classes (extracted g (__init__ base url)) →
  ∃ class_uri,
    last_named class_name (class_subjects g) = Some class_uri
    ∧ class_uri ∈ class_subjects g
    ∧ _extract_local_name class_uri = class_name
    ∧ header_of class_data = header_of (class_of_subject g class_uri).
Proof.
  intros Hin.
  destruct (extracted_spec g base url) as (_ & _ & _ & [Hwf _] & Hh & _).
  apply (dict_elem_get _ _ _ Hwf) in Hin.
  specialize (Hh class_name). rewrite Hin in Hh.
  destruct (last_named class_name (class_subjects g)) as [u|] eqn:Hlast;
    [|done].
  exists u. destruct (last_named_Some _ _ _ Hlast) as [? ?].
  split_and!; try done. cbn in Hh. congruence.
Qed.

(** C7.  Every class context document that is emitted belongs to a class
    subject of the store and is written to [<local name>.jsonld]; its
    ["@id"] is the URI of that subject and its ["@type"] is ["rdfs:Class"].
    Its ["rdfs:label"] is the label [_get_label] extracts for the subject,
    or the local name when it extracts none (or an empty one); so a subject
    without a label gets its local name, and so does one whose label node is
    false.  ["rdfs:comment"] is present
    exactly when [_get_comment] extracts a comment that is not empty, and
    then is that comment; ["rdfs:subClassOf"] is present exactly when
    [_get_subclass_of] extracts a superclass that is not empty, and then is
    the object with ["@id"] the parent URI and ["@type"] ["@id"].  What
    these three extract is the string of the node the store gives, provided
    the node is true: nothing when there is no node, and nothing for a
    literal whose value is false, such as the integer [0]. *)
Theorem class_context_fields (g : Graph) (base : string) (url : option string)
    (file : string) (doc : dict json) :
  (file, doc) ∈ class_contexts (extracted g (__init__ base url)) →
  ∃ class_uri,
    class_uri ∈ class_subjects g
    ∧ file = _extract_local_name class_uri +:+ ".jsonld"
    ∧ dict_get "@id" doc = Some (JString class_uri)
    ∧ dict_get "@type" doc = Some (JString "rdfs:Class")
    ∧ dict_get "rdfs:label" doc
      = Some (JString
                (or_else (str_or_none (value g class_uri RDFS_label))
                   (_extract_local_name class_uri)))
    ∧ (value g class_uri RDFS_label = None →
       dict_get "rdfs:label" doc
       = Some (JString (_extract_local_name class_uri)))
    ∧ (∀ node, value g class_uri RDFS_label = Some node →
               node_bool node = false →
               dict_get "rdfs:label" doc
               = Some (JString (_extract_local_name class_uri)))
    ∧ (∀ node, value g class_uri RDFS_label = Some node →
               node_bool node = true → node_str node ≠ EmptyString →
               dict_get "rdfs:label" doc = Some (JString (node_str node)))
    ∧ dict_get "rdfs:comment" doc
      = JString <$> when_truthy (str_or_none (value g class_uri RDFS_comment))
    ∧ dict_get "rdfs:subClassOf" doc
      = (λ parent, JObject [("@id", JString parent); ("@type", JString "@id")])
        <$> when_truthy (str_or_none (value g class_uri RDFS_subClassOf)).
Proof.
  intros (n & cd & Hin & -> & ->)%class_contexts_elem.
  destruct (extracted_class _ _ _ _ _ Hin) as (u & _ & Hu & <- & Hh).
  exists u.
  destruct (build_class_context_fields (extracted g (__init__ base url))
              (_extract_local_name u) cd
              (_get_inherited_properties (extracted g (__init__ base url))
                 (_extract_local_name u)))
    as (Hid & Hty & Hlabel & Hcomment & Hsub).
  unfold header_of in Hh. cbn in Hh. injection Hh as Hi Hl Hc Hs.
  rewrite Hid, Hty, Hlabel, Hcomment, Hsub, Hi, Hl, Hc, Hs.
  split_and!; try done.
  - intros Hnone. by rewrite Hnone.
  - intros node Hnode Hfalse. rewrite Hnode. cbn. by rewrite Hfalse.
  - intros node Hnode Htrue Hstr. rewrite Hnode. cbn. rewrite Htrue. cbn.
    by destruct (node_str node).
Qed.

(** The class [A] of the store below has the integer literal [0] as its
    label and the boolean literal [false] as its comment: the document for
    [A] has the local name as label. *)
Lemma class_context_fields_witness :
  dict_get "rdfs:label"
    (_build_class_context typed_label_schema "A"
       {| cls_id := "http://ex.org/s#A"; cls_label := "A";
          cls_comment := None;
          cls_subClassOf := None;
          cls_properties :=
            [("A.n", ref_of_subject typed_label_graph "http://ex.org/s#A.n")] |}
       (_get_inherited_properties typed_label_schema "A"))
  = Some (JString "A").
Proof.
  destruct (class_context_fields typed_label_graph cim16 None "A.jsonld"
              (_build_class_context typed_label_schema "A"
                 {| cls_id := "http://ex.org/s#A"; cls_label := "A";
                    cls_comment := None;
                    cls_subClassOf := None;
                    cls_properties :=
                      [("A.n",
                        ref_of_subject typed_label_graph "http://ex.org/s#A.n")] |}
                 (_get_inherited_properties typed_label_schema "A")))
    as (u & Hu & Hfile & Hid & _ & Hlabel & _).
  - vm_compute. apply list_elem_of_here.
  - vm_compute in Hu.
    apply elem_of_cons in Hu as [->|Hu];
      [|apply list_elem_of_singleton in Hu as ->; vm_compute in Hfile;
        discriminate Hfile].
    exact Hlabel.
Defined.

(** A label or comment whose value is false counts as absent: the class
    gets its local name as label and no comment, and the property gets no
    label, although the strings of the nodes are ["0"] and ["false"]. *)
Example false_literals_dropped :
  dict_get "A" (classes typed_label_schema)
  = Some {| cls_id := "http://ex.org/s#A"; cls_label := "A";
            cls_comment := None;
            cls_subClassOf := None;
            cls_properties :=
              [("A.n", {| ref_id := "http://ex.org/s#A.n"; ref_label := None;
                          ref_comment := None; ref_range := None |})] |}
  ∧ dict_get "B" (classes typed_label_schema)
    = Some {| cls_id := "http://ex.org/s#B"; cls_label := "Bee";
              cls_comment := Some "a bee";
              cls_subClassOf := None;
              cls_properties := [] |}
  ∧ prop_label <$> dict_get "A.n" (properties typed_label_schema)
    = Some "A.n".
Proof. by vm_compute. Qed.

(** ** The class contexts of two class subjects *)

Lemma extracted_keys g self :
  dict_keys (classes (extracted g self))
  = dict_keys (classes (extract_classes (load_schemas g self))).
Proof.
  unfold extracted, extract_properties.
  set (s1 := extract_classes (load_schemas g self)).
  by destruct (fold_extract_property_inv (graph s1) (dict_keys (classes s1))
                 (property_subjects (graph s1)) (property_subjects (graph s1)) s1)
    as (_ & _ & _ & -> & _).
Qed.

Lemma last_named_pair n u1 u2 :
  last_named n [u1; u2]
  = if decide (_extract_local_name u2 = n) then Some u2
    else if decide (_extract_local_name u1 = n) then Some u1 else None.
Proof.
  unfold last_named. rewrite !filter_cons, filter_nil.
  by repeat case_decide.
Qed.

(** When the store has exactly the two class subjects [u1] and [u2]: if
    their local names differ, the emitter builds two class context
    documents, for different file names, each with its own URI as ["@id"];
    if their local names coincide, the registry keeps one descriptor, that
    of [u2], which is extracted later, and the emitter builds one class
    context document, with ["@id"] [u2]. *)
Lemma two_class_contexts (g : Graph) (base : string) (url : option string)
    (u1 u2 : string) :
  class_subjects g = [u1; u2] →
  u1 ≠ u2 →
  (_extract_local_name u1 ≠ _extract_local_name u2 →
   ∃ doc1 doc2,
     class_contexts (extracted g (__init__ base url))
     = [ (_extract_local_name u1 +:+ ".jsonld", doc1);
         (_extract_local_name u2 +:+ ".jsonld", doc2) ]
     ∧ _extract_local_name u1 +:+ ".jsonld" ≠ _extract_local_name u2 +:+ ".jsonld"
     ∧ dict_get "@id" doc1 = Some (JString u1)
     ∧ dict_get "@id" doc2 = Some (JString u2))
  ∧ (_extract_local_name u1 = _extract_local_name u2 →
     ∃ cd doc,
       classes (extracted g (__init__ base url)) = [(_extract_local_name u2, cd)]
       ∧ header_of cd = header_of (class_of_subject g u2)
       ∧ class_contexts (extracted g (__init__ base url))
         = [(_extract_local_name u2 +:+ ".jsonld", doc)]
       ∧ dict_get "@id" doc = Some (JString u2)).
Proof.
  intros Hsubj Hne.
  pose proof (extracted_keys g (__init__ base url)) as Hkeys.
  unfold extract_classes in Hkeys. cbn [graph load_schemas] in Hkeys.
  rewrite Hsubj in Hkeys. cbn in Hkeys.
  assert (Hclass : ∀ n cd,
            (n, cd) ∈ classes (extracted g (__init__ base url)) →
            ∃ u, last_named n [u1; u2] = Some u
                 ∧ header_of cd = header_of (class_of_subject g u)).
  { intros n cd Hin.
    destruct (extracted_class _ _ _ _ _ Hin) as (u & Hlast & _ & _ & Hh).
    rewrite Hsubj in Hlast. by exists u. }
  split.
  - intros Hnames. rewrite decide_False in Hkeys by done.
    destruct (classes (extracted g (__init__ base url)))
      as [|[n1 cd1] [|[n2 cd2] [|??]]] eqn:Hcls; try done.
    cbn in Hkeys. injection Hkeys as -> ->.
    destruct (Hclass _ cd1 (list_elem_of_here _ _)) as (v1 & Hv1 & Hh1).
    destruct (Hclass _ cd2 (list_elem_of_further _ _ _ (list_elem_of_here _ _)))
      as (v2 & Hv2 & Hh2).
    rewrite last_named_pair in Hv1, Hv2.
    rewrite decide_False, decide_True in Hv1 by done.
    rewrite decide_True in Hv2 by done.
    injection Hv1 as <-. injection Hv2 as <-.
    unfold class_contexts. rewrite Hcls. cbn [map].
    do 2 eexists. split; [reflexivity|]. split_and!.
    + intros Heq. by apply Hnames, (str_app_inv_tail _ _ ".jsonld").
    + destruct (build_class_context_fields (extracted g (__init__ base url))
                  (_extract_local_name u1) cd1
                  (_get_inherited_properties (extracted g (__init__ base url))
                     (_extract_local_name u1))) as (-> & _).
      unfold header_of in Hh1. cbn in Hh1. congruence.
    + destruct (build_class_context_fields (extracted g (__init__ base url))
                  (_extract_local_name u2) cd2
                  (_get_inherited_properties (extracted g (__init__ base url))
                     (_extract_local_name u2))) as (-> & _).
      unfold header_of in Hh2. cbn in Hh2. congruence.
  - intros Hnames. rewrite decide_True in Hkeys by done.
    destruct (classes (extracted g (__init__ base url)))
      as [|[n cd] [|??]] eqn:Hcls; try done.
    cbn in Hkeys. injection Hkeys as ->.
    destruct (Hclass _ cd (list_elem_of_here _ _)) as (v & Hv & Hh).
    rewrite last_named_pair, decide_True in Hv by done. injection Hv as <-.
    exists cd. eexists. split_and!; [done|done| |].
    + unfold class_contexts. rewrite Hcls. reflexivity.
    + destruct (build_class_context_fields (extracted g (__init__ base url))
                  (_extract_local_name u2) cd
                  (_get_inherited_properties (extracted g (__init__ base url))
                     (_extract_local_name u2))) as (-> & _).
      unfold header_of in Hh. cbn in Hh. congruence.
Qed.

(** Two class subjects with the local name [T]: one descriptor, that of
    the later subject, and one document. *)
Example same_name_overwrites :
  ∃ doc,
    classes (extracted same_name_graph (__init__ cim16 None))
    = [("T", class_of_subject same_name_graph "http://ex.org/b#T")]
    ∧ class_contexts (extracted same_name_graph (__init__ cim16 None))
      = [("T.jsonld", doc)]
    ∧ dict_get "@id" doc = Some (JString "http://ex.org/b#T").
Proof. eexists. split_and!; by vm_compute. Qed.

(** ** The root document *)

Lemma main_context_members_eq self :
  main_context_members self
  = dict_update (prefix_bindings self)
      (map (λ n, (n, class_entry self n)) (sorted (dict_keys (classes self)))).
Proof.
  unfold main_context_members, dict_update.
  generalize (prefix_bindings self). generalize (sorted (dict_keys (classes self))).
  intros l. induction l as [|n l IH]; intros members; [done|].
  cbn [fold_left map]. apply IH.
Qed.

Lemma sorted_elem l x : x ∈ sorted l ↔ x ∈ l.
Proof. unfold sorted. by rewrite merge_sort_Permutation. Qed.

Lemma sorted_NoDup l : NoDup l → NoDup (sorted l).
Proof. unfold sorted. by rewrite merge_sort_Permutation. Qed.

Lemma sorted_strict l : NoDup l → Sorted str_lt (sorted l).
Proof.
  intros Hnd. apply sorted_NoDup in Hnd.
  assert (Hs : StronglySorted String.le (sorted l)).
  { apply StronglySorted_merge_sort; apply _. }
  induction Hs as [|a l' Hs IH Hall]; [constructor|].
  apply NoDup_cons in Hnd as [Ha Hnd]. constructor; [by apply IH|].
  destruct l' as [|b l']; constructor.
  split; [by apply (Forall_inv Hall)|].
  intros ->. apply Ha, list_elem_of_here.
Qed.

Lemma entries_keys self l : (map (λ n, (n, class_entry self n)) l).*1 = l.
Proof. induction l as [|n l IH]; [done|]. cbn. f_equal. apply IH. Qed.

Lemma entries_get self l n :
  dict_get n (map (λ n, (n, class_entry self n)) l)
  = if decide (n ∈ l) then Some (class_entry self n) else None.
Proof.
  induction l as [|m l IH]; [done|]. cbn [map dict_get].
  destruct (decide (m = n)) as [->|Hne].
  - by rewrite decide_True by apply list_elem_of_here.
  - rewrite IH. destruct (decide (n ∈ l)).
    + by rewrite decide_True by by apply list_elem_of_further.
    + rewrite decide_False; [done|]. intros [->|?]%elem_of_cons; done.
Qed.

(** Every class has its entry in the root document. *)
Lemma main_context_members_class self n :
  dict_wf (classes self) →
  n ∈ dict_keys (classes self) →
  dict_get n (main_context_members self) = Some (class_entry self n).
Proof.
  intros Hwf Hn. rewrite main_context_members_eq, dict_get_update.
  - rewrite entries_get, decide_True by by apply sorted_elem. done.
  - unfold dict_wf. rewrite entries_keys. by apply sorted_NoDup.
Qed.

(** When no class is named like a prefix, the root document is the four
    prefix bindings followed by the class entries in strictly ascending
    order of class name. *)
Lemma main_context_members_no_clash self :
  dict_wf (classes self) →
  (∀ n, n ∈ dict_keys (classes self) → n ∉ prefix_names) →
  main_context_members self
  = prefix_bindings self
    ++ map (λ n, (n, class_entry self n)) (sorted (dict_keys (classes self)))
  ∧ (class_entries self).*1 = sorted (dict_keys (classes self))
  ∧ Sorted str_lt (class_entries self).*1.
Proof.
  intros Hwf Hclash.
  assert (Heq : main_context_members self
                = prefix_bindings self
                  ++ map (λ n, (n, class_entry self n))
                       (sorted (dict_keys (classes self)))).
  { rewrite main_context_members_eq. apply dict_update_fresh.
    - unfold dict_wf. rewrite entries_keys. by apply sorted_NoDup.
    - intros x. rewrite entries_keys, sorted_elem. intros Hx. by apply Hclash. }
  assert (Hkeys : (class_entries self).*1 = sorted (dict_keys (classes self))).
  { unfold class_entries. rewrite Heq, filter_app.
    assert (filter (λ kv : string * json, kv.1 ∈ dict_keys (classes self))
              (prefix_bindings self) = []) as ->.
    { unfold prefix_bindings. rewrite !filter_cons, filter_nil. cbn [fst].
      rewrite !decide_False; [done|..]; intros Hin; apply (Hclash _ Hin);
        unfold prefix_names; set_solver. }
    cbn [app].
    assert (∀ l, (∀ x, x ∈ l → x ∈ dict_keys (classes self)) →
                 (filter (λ kv : string * json, kv.1 ∈ dict_keys (classes self))
                    (map (λ n, (n, class_entry self n)) l)).*1 = l) as Hall.
    { intros l. induction l as [|n l IH]; intros Hl; [done|].
      cbn [map]. rewrite filter_cons. cbn [fst].
      rewrite decide_True by apply Hl, list_elem_of_here.
      cbn. f_equal. apply IH. intros x Hx. by apply Hl, list_elem_of_further. }
    apply Hall. intros x. by rewrite sorted_elem. }
  split_and!; [done..|]. rewrite Hkeys. by apply sorted_strict.
Qed.

(** ** C5: order of the class entries of the root document *)

(** C5, at the failing input.  With the two classes [cim] and [a], the
    entry of class [cim] takes the place of the [cim] prefix binding at the
    head of the root document and the entry of [a] is appended, so the class
    entries appear in the order [cim], [a], which is not ascending, and the
    binding of the [cim] prefix is lost. *)
Theorem root_entries_prefix_clash :
  dict_keys (classes prefix_clash_schema) = ["cim"; "a"]
  ∧ dict_keys (main_context_members prefix_clash_schema)
    = ["cim"; "xsd"; "rdf"; "rdfs"; "a"]
  ∧ dict_keys (class_entries prefix_clash_schema) = ["cim"; "a"]
  ∧ ¬ Sorted str_lt (dict_keys (class_entries prefix_clash_schema))
  ∧ dict_get "cim" (main_context_members prefix_clash_schema)
    = Some (JObject [ ("@id", JString "cim:cim");
                      ("@context", JString "CIM/cim.jsonld") ]).
Proof.
  split_and!; try by vm_compute.
  assert (dict_keys (class_entries prefix_clash_schema) = ["cim"; "a"]) as ->
    by by vm_compute.
  intros Hs. apply Sorted_inv in Hs as [_ Hhd].
  apply HdRel_inv in Hhd as [Hle _]. by vm_compute in Hle.
Qed.

(** ** C6: relative and absolute context URLs *)

Lemma init_context_url base raw self class_name :
  context_base_url self = context_base_url (__init__ base raw) →
  context_url self class_name
  = match raw with
    | Some u =>
        if str_truthy (rstrip "/" u)
        then rstrip "/" u +:+ "/CIM/" +:+ class_name +:+ ".jsonld"
        else "CIM/" +:+ class_name +:+ ".jsonld"
    | None => "CIM/" +:+ class_name +:+ ".jsonld"
    end.
Proof.
  unfold context_url. intros ->. cbn [context_base_url __init__].
  destruct raw as [u|]; [|done].
  destruct (str_truthy u) eqn:Hu; [done|]. by destruct u.
Qed.

(** The URL of a class's entry in the root document, for every base URL:
    the relative path [CIM/<name>.jsonld] when no base URL is given or when
    nothing is left of it once its trailing slashes are removed, and
    otherwise the base URL without its trailing slashes followed by
    [/CIM/<name>.jsonld].  Removing the trailing slashes removes all of
    them.  ["https://h/c"] and ["https://h/c/"] give the same URL. *)
Lemma context_url_modes (g : Graph) (base : string) (raw : option string)
    (class_name : string) :
  class_name ∈ dict_keys (classes (extracted g (__init__ base raw))) →
  dict_get class_name (main_context_members (extracted g (__init__ base raw)))
  = Some (JObject
            [ ("@id", JString ("cim:" +:+ class_name));
              ("@context",
               JString
                 match raw with
                 | Some u =>
                     if str_truthy (rstrip "/" u)
                     then rstrip "/" u +:+ "/CIM/" +:+ class_name +:+ ".jsonld"
                     else "CIM/" +:+ class_name +:+ ".jsonld"
                 | None => "CIM/" +:+ class_name +:+ ".jsonld"
                 end) ])
  ∧ (∀ u, raw = Some u →
       (∃ n, u = rstrip "/" u +:+ str_repeat "/" n)
       ∧ ¬ ends_with "/" (rstrip "/" u))
  ∧ context_url (__init__ base (Some "https://h/c")) class_name
    = "https://h/c/CIM/" +:+ class_name +:+ ".jsonld"
  ∧ context_url (__init__ base (Some "https://h/c/")) class_name
    = "https://h/c/CIM/" +:+ class_name +:+ ".jsonld".
Proof.
  intros Hin.
  destruct (extracted_spec g base raw) as (_ & _ & Hurl & [Hwf _] & _).
  split_and!; [|intros u _; apply rstrip_spec|done..].
  rewrite main_context_members_class by done.
  unfold class_entry. by rewrite (init_context_url base raw).
Qed.

(** The code gives the URL the specification words whenever the base URL,
    if there is one, has a character other than the slash. *)
Lemma context_url_as_stated (base : string) (raw : option string)
    (class_name : string) :
  (∀ u, raw = Some u → rstrip "/" u ≠ EmptyString) →
  context_url (__init__ base raw) class_name
  = stated_context_url raw class_name.
Proof.
  intros Hraw. rewrite (init_context_url base raw) by done.
  destruct raw as [u|]; [|done]. specialize (Hraw u eq_refl).
  unfold stated_context_url. by destruct (rstrip "/" u).
Qed.

(** C6, at the failing input.  The base URL ["/"] is given and is not
    empty, yet class [A] gets the relative URL [CIM/A.jsonld] in the root
    document, where the claim (and the comment of line 197: the absolute
    URL if a base URL is provided) gives ["/CIM/A.jsonld"]: stripping the
    slashes leaves the empty string, which the test of line 198 takes for
    no base URL at all. *)
Theorem context_url_slash_only :
  context_base_url (__init__ cim16 (Some "/")) = Some EmptyString
  ∧ dict_get "A" (main_context_members slash_schema)
    = Some (JObject [ ("@id", JString "cim:A");
                      ("@context", JString "CIM/A.jsonld") ])
  ∧ stated_context_url (Some "/") "A" = "/CIM/A.jsonld"
  ∧ dict_get "A" (main_context_members slash_schema)
    ≠ Some (JObject [ ("@id", JString "cim:A");
                      ("@context",
                       JString (stated_context_url (Some "/") "A")) ]).
Proof. split_and!; by vm_compute. Qed.

(** ** C4: properties that are attached to no class *)

Lemma dict_set_elem {V} k v (d : dict V) x :
  x ∈ dict_set k v d → x = (k, v) ∨ x ∈ d.
Proof.
  induction d as [|[k0 v0] d IH]; simpl.
  - intros ->%list_elem_of_singleton. by left.
  - case_decide.
    + intros [->|?]%elem_of_cons; [by left|]. right. by apply list_elem_of_further.
    + intros [->|Hin]%elem_of_cons; [right; apply list_elem_of_here|].
      destruct (IH Hin) as [?|?]; [by left|]. right. by apply list_elem_of_further.
Qed.

Lemma dict_update_elem {V} (d o : dict V) x :
  x ∈ dict_update d o → x ∈ d ∨ x ∈ o.
Proof.
  revert d. induction o as [|[k v] o IH]; intros d; [by left|].
  rewrite dict_update_cons. intros [Hin|Hin]%IH.
  - apply dict_set_elem in Hin as [->|?]; [|by left].
    right. apply list_elem_of_here.
  - right. by apply list_elem_of_further.
Qed.

Lemma overlay_elem chain x :
  x ∈ overlay chain → ∃ cd, cd ∈ chain ∧ x ∈ cls_properties cd.
Proof.
  induction chain as [|cd chain IH]; simpl.
  - intros H. by apply elem_of_nil in H.
  - intros [Hin|Hin]%dict_update_elem.
    + destruct (IH Hin) as (cd' & ? & ?). exists cd'.
      split; [by apply list_elem_of_further|done].
    + exists cd. split; [apply list_elem_of_here|done].
Qed.

(** Whatever the resolver returns for a class is attached to some class. *)
Lemma inherited_elem self class_name x :
  x ∈ _get_inherited_properties self class_name →
  ∃ c cd, (c, cd) ∈ classes self ∧ x ∈ cls_properties cd.
Proof.
  rewrite get_inherited_properties_overlay.
  intros (cd & Hchain & Hx)%overlay_elem.
  destruct (superclass_chain_elem _ _ _ _ _ Hchain) as [c Hc]. by exists c, cd.
Qed.

Lemma last_named_split n before u after :
  _extract_local_name u = n →
  (∀ v, v ∈ after → _extract_local_name v ≠ n) →
  last_named n (before ++ u :: after) = Some u.
Proof.
  intros Hu Hafter. unfold last_named.
  rewrite filter_app, filter_cons, decide_True by done.
  assert (filter (λ v, _extract_local_name v = n) after = []) as ->.
  { induction after as [|v after IH]; [done|].
    rewrite filter_cons, decide_False by apply Hafter, list_elem_of_here.
    apply IH. intros w Hw. by apply Hafter, list_elem_of_further. }
  by rewrite last_snoc.
Qed.

(** C4, as stated, fails when a property extracted later has the same local
    name: the first property of the store below has no domain, and after
    extraction the registry holds the second one in its place. *)
Lemma shadowed_property_not_recorded :
  "http://ex.org/a#p" ∈ property_subjects shadow_graph
  ∧ str_or_none (value shadow_graph "http://ex.org/a#p" RDFS_domain) = None
  ∧ prop_id <$> dict_get "p" (properties shadow_schema)
    = Some "http://ex.org/b#p"
  ∧ ¬ recorded shadow_schema "http://ex.org/a#p".
Proof.
  split_and!; [compute_done|done|by vm_compute|].
  intros (n & pd & Hget & Hid). apply dict_get_Some_elem in Hget.
  assert (properties shadow_schema
          = [("p", property_of_subject shadow_graph "http://ex.org/b#p")])
    as Hprops by by vm_compute.
  rewrite Hprops in Hget. apply list_elem_of_singleton in Hget.
  injection Hget as -> ->. by vm_compute in Hid.
Qed.

(** C4, amended.  A property subject whose domain is absent, or whose
    domain's local name is not a class of the registry when properties are
    extracted, is attached to the own-property mapping of no class and is
    the ["@id"] of no property entry of any class context document; its
    descriptor is in the global registry under its local name provided no
    property subject extracted after it has the same local name. *)
Theorem unattached_property (g : Graph) (base : string) (url : option string)
    (prop_uri : string) :
  prop_uri ∈ property_subjects g →
  (str_or_none (value g prop_uri RDFS_domain) = None
   ∨ ∃ d, str_or_none (value g prop_uri RDFS_domain) = Some d
          ∧ _extract_local_name d
            ∉ dict_keys (classes (extract_classes
                                    (load_schemas g (__init__ base url))))) →
  (∀ before after,
     property_subjects g = before ++ prop_uri :: after →
     (∀ v, v ∈ after → _extract_local_name v ≠ _extract_local_name prop_uri) →
     dict_get (_extract_local_name prop_uri)
       (properties (extracted g (__init__ base url)))
     = Some (property_of_subject g prop_uri))
  ∧ ¬ attached_somewhere (extracted g (__init__ base url)) prop_uri
  ∧ ¬ emitted_somewhere (extracted g (__init__ base url)) prop_uri.
Proof.
  intros Hsubj Hdom.
  destruct (extracted_spec g base url)
    as (_ & _ & _ & [Hwf Hpwf] & _ & Hprops & Hatt).
  assert (Hno : ¬ attachable g
                  (dict_keys (classes (extracted g (__init__ base url))))
                  prop_uri).
  { rewrite extracted_keys. intros (d & Hd & _ & Hin).
    destruct Hdom as [Hnone|(d' & Hd' & Hnin)]; [congruence|].
    rewrite Hd in Hd'. injection Hd' as <-. done. }
  assert (Hnot : ¬ attached_somewhere (extracted g (__init__ base url)) prop_uri).
  { intros (c & cd & n & r & Hc & Hr & Hid).
    rewrite Forall_forall in Hatt. specialize (Hatt _ Hc). cbn in Hatt.
    rewrite Forall_forall in Hatt. destruct (Hatt _ Hr) as (u & _ & Hu & Heq).
    injection Heq as -> ->. cbn in Hid. by subst. }
  split_and!; [|done|].
  - intros before after Hsplit Hafter.
    rewrite Hprops, Hsplit, (last_named_split _ before prop_uri after); done.
  - intros (file & doc & p & entry & Hdoc & Hentry & Hid).
    apply class_contexts_elem in Hdoc as (n & cd & _ & _ & ->).
    rewrite build_class_context_prop in Hentry
      by apply get_inherited_properties_wf.
    destruct (dict_get p (_get_inherited_properties _ n)) as [pd|] eqn:Hpd;
      [|done].
    cbn in Hentry. injection Hentry as <-.
    rewrite prop_context_id in Hid. injection Hid as Hid.
    apply dict_get_Some_elem, inherited_elem in Hpd as (c & cd' & Hc & Hin).
    apply Hnot. by exists c, cd', p, pd.
Qed.

Lemma unattached_property_witness :
  dict_get "free" (properties (extracted orphan_graph (__init__ cim16 None)))
  = Some (property_of_subject orphan_graph "http://ex.org/s#free")
  ∧ ¬ attached_somewhere (extracted orphan_graph (__init__ cim16 None))
        "http://ex.org/s#free"
  ∧ ¬ emitted_somewhere (extracted orphan_graph (__init__ cim16 None))
        "http://ex.org/s#Z.z".
Proof.
  destruct (unattached_property orphan_graph cim16 None "http://ex.org/s#free")
    as (Hrec & Hatt & _).
  { compute_done. }
  { left. reflexivity. }
  destruct (unattached_property orphan_graph cim16 None "http://ex.org/s#Z.z")
    as (_ & _ & Hemit).
  { compute_done. }
  { right. exists "http://ex.org/s#Z". split; [reflexivity|compute_done]. }
  split_and!; [|exact Hatt|exact Hemit].
  apply (Hrec ["http://ex.org/s#A.a"] ["http://ex.org/s#Z.z"]); [reflexivity|].
  intros v Hv. apply list_elem_of_singleton in Hv. subst v.
  vm_compute. discriminate.
Defined.

(** ** The requests of a run *)

Lemma class_contexts_keys self :
  (class_contexts self).*1 = (λ n, n +:+ ".jsonld") <$> dict_keys (classes self).
Proof.
  unfold class_contexts, dict_keys.
  induction (classes self) as [|[n cd] l IH]; [done|]. cbn. f_equal. apply IH.
Qed.

Lemma writes_keys json_dumps self :
  (writes json_dumps self).*1
  = (InCimDir <$> (class_contexts self).*1) ++ [InOutputDir "context.jsonld"].
Proof.
  unfold writes. rewrite fmap_app. f_equal.
  induction (class_contexts self) as [|[file doc] l IH]; [done|].
  cbn. f_equal. apply IH.
Qed.

Lemma write_class_contexts_run json_dumps os self contexts fs :
  and_then (write_class_contexts json_dumps os contexts fs)
    (generate_main_context json_dumps os self)
  = run_writes os
      (map (λ '(file, context), (InCimDir file, json_dumps (JObject context)))
         contexts
       ++ [(InOutputDir "context.jsonld",
            json_dumps (JObject (main_context self)))]) fs.
Proof.
  revert fs. induction contexts as [|[file doc] l IH]; intros fs.
  - cbn. unfold generate_main_context, write_file.
    by destruct (fs_write os _ _ fs).
  - cbn [write_class_contexts map app run_writes]. unfold write_file.
    destruct (fs_write os _ _ fs) as [fs'|fs']; cbn [and_then]; [apply IH|done].
Qed.

(** For every file system, a run makes the [CIM] directory and then the
    requests of [writes] in order, up to the first that raises. *)
Lemma generate_run json_dumps os self fs :
  generate json_dumps os self fs
  = and_then (fs_mkdir_cim os fs) (run_writes os (writes json_dumps self)).
Proof.
  unfold generate, generate_class_contexts, writes.
  destruct (fs_mkdir_cim os fs) as [fs'|fs']; cbn [and_then]; [|done].
  apply write_class_contexts_run.
Qed.

Lemma run_writes_recorder refused ws record :
  run_writes (recorder refused) ws record
  = (if all_accepted refused ws then Returned else Raised)
      (record ++ accepted_prefix refused ws).
Proof.
  revert record. induction ws as [|[path text] ws IH]; intros record.
  - cbn. by rewrite app_nil_r.
  - cbn. destruct (refused path) eqn:Hpath; cbn.
    + by rewrite app_nil_r.
    + rewrite IH. by rewrite <- app_assoc.
Qed.

Lemma generate_recorder json_dumps refused self record :
  generate json_dumps (recorder refused) self record
  = (if all_accepted refused (writes json_dumps self) then Returned else Raised)
      (record ++ accepted_prefix refused (writes json_dumps self)).
Proof. rewrite generate_run. cbn [and_then recorder fs_mkdir_cim]. apply run_writes_recorder. Qed.

Lemma accepted_prefix_elem refused ws w :
  w ∈ accepted_prefix refused ws → w ∈ ws ∧ refused w.1 = false.
Proof.
  induction ws as [|w' ws IH]; cbn; [by intros ?%elem_of_nil|].
  destruct (refused w'.1) eqn:Hw; [by intros ?%elem_of_nil|].
  intros [->|Hin]%elem_of_cons.
  - split; [apply list_elem_of_here|done].
  - destruct (IH Hin). split; [by apply list_elem_of_further|done].
Qed.

Lemma accepted_prefix_all refused ws :
  all_accepted refused ws = true → accepted_prefix refused ws = ws.
Proof.
  induction ws as [|w ws IH]; cbn; [done|].
  destruct (refused w.1); cbn; [done|]. intros H. by rewrite IH.
Qed.

Lemma accepted_prefix_app_refused refused l1 l2 w :
  w ∈ l1 → refused w.1 = true →
  accepted_prefix refused (l1 ++ l2) = accepted_prefix refused l1.
Proof.
  induction l1 as [|w' l1 IH]; [by intros ?%elem_of_nil|].
  cbn. intros Hin Hw. destruct (refused w'.1) eqn:Hw'; [done|].
  apply elem_of_cons in Hin as [->|Hin]; [congruence|].
  f_equal. by apply IH.
Qed.

Lemma all_accepted_elem refused ws w :
  all_accepted refused ws = true → w ∈ ws → refused w.1 = false.
Proof.
  unfold all_accepted. rewrite forallb_forall. intros Hall Hin.
  apply negb_true_iff, Hall. by apply list_elem_of_In.
Qed.

(** ** C8: one context file per local name, unless the file system raises *)

(** C8, at the failing input.  The store has the two class subjects
    [http://ex.org/a#b/c] and [http://ex.org/s#Z], whose local names [b/c]
    and [Z] are distinct, and the first file the run asks for is
    [b/c.jsonld] in the [CIM] directory.  Whenever the file system raises on
    that request (as it does when the [CIM] directory has no subdirectory
    [b]), [generate_class_contexts] raises: the run is over after this one
    request, nothing is asked for [Z.jsonld], and [convert] does not
    return. *)
Theorem class_file_refused (json_dumps : json → string) (os : FileSystem)
    (fs : fs_state os) :
  (∀ text fs1, ∃ fs2,
     fs_write os (InCimDir "b/c.jsonld") text fs1 = Raised fs2) →
  class_subjects slash_name_graph = ["http://ex.org/a#b/c"; "http://ex.org/s#Z"]
  ∧ _extract_local_name "http://ex.org/a#b/c" = "b/c"
  ∧ _extract_local_name "http://ex.org/s#Z" = "Z"
  ∧ (class_contexts slash_name_schema).*1 = ["b/c.jsonld"; "Z.jsonld"]
  ∧ (∃ text,
       generate_class_contexts json_dumps os slash_name_schema fs
       = and_then (fs_mkdir_cim os fs)
           (fs_write os (InCimDir "b/c.jsonld") text))
  ∧ (∀ fs', generate_class_contexts json_dumps os slash_name_schema fs
            ≠ Returned fs')
  ∧ (∀ fs', (convert json_dumps os slash_name_graph (__init__ cim16 None) fs).2
            ≠ Returned fs').
Proof.
  intros Hraise.
  assert (∃ doc1 doc2,
            class_contexts slash_name_schema
            = [("b/c.jsonld", doc1); ("Z.jsonld", doc2)]) as (doc1 & doc2 & Hdocs).
  { do 2 eexists. vm_compute. reflexivity. }
  assert (Hrun : generate_class_contexts json_dumps os slash_name_schema fs
                 = and_then (fs_mkdir_cim os fs)
                     (fs_write os (InCimDir "b/c.jsonld")
                        (json_dumps (JObject doc1)))).
  { unfold generate_class_contexts. rewrite Hdocs.
    destruct (fs_mkdir_cim os fs) as [fs1|fs1]; cbn [and_then]; [|done].
    cbn [write_class_contexts]. unfold write_file.
    by destruct (Hraise (json_dumps (JObject doc1)) fs1) as [fs2 ->]. }
  assert (Hnot : ∀ fs', generate_class_contexts json_dumps os slash_name_schema fs
                        ≠ Returned fs').
  { intros fs'. rewrite Hrun.
    destruct (fs_mkdir_cim os fs) as [fs1|fs1]; cbn [and_then]; [|done].
    by destruct (Hraise (json_dumps (JObject doc1)) fs1) as [fs2 ->]. }
  split_and!; [done..|by rewrite Hdocs|by eexists|done|].
  intros fs'. unfold convert. cbn [snd].
  change (extract_properties (extract_classes
            (load_schemas slash_name_graph (__init__ cim16 None))))
    with slash_name_schema.
  destruct (generate_class_contexts json_dumps os slash_name_schema fs)
    as [fs1|fs1] eqn:Hgen; cbn [and_then]; [|done].
  by destruct (Hnot fs1).
Qed.

(** In a directory without subdirectories the run raises before anything
    is written. *)
Lemma class_file_refused_witness :
  generate_class_contexts json_dumps_indent2 (recorder no_subdirectories)
    slash_name_schema []
  = Raised [].
Proof.
  destruct (class_file_refused json_dumps_indent2 (recorder no_subdirectories) [])
    as (_ & _ & _ & _ & (text & Hrun) & _).
  - intros text record. exists record. reflexivity.
  - rewrite Hrun. reflexivity.
Defined.

(** ** The whole conversion *)

(** [convert] extracts the registries and then runs context generation. *)
Lemma convert_generate json_dumps os g self fs :
  convert json_dumps os g self fs
  = (extracted g self, generate json_dumps os (extracted g self) fs).
Proof. reflexivity. Qed.

(** The root context file of the override schema, byte for byte: the last
    file of the run. *)
Example override_root_file :
  ∃ record,
    (convert json_dumps_indent2 (recorder nothing_refused) override_graph
       (__init__ "http://ex.org/s#" None) []).2 = Returned record
    ∧ record.*1
      = [InCimDir "A.jsonld"; InCimDir "B.jsonld"; InOutputDir "context.jsonld"]
    ∧ last record
      = Some (InOutputDir "context.jsonld",
              json_dumps_indent2
                (JObject
                   [ ("@context",
                      JObject
                        [ ("cim", JString "http://ex.org/s#");
                          ("xsd", JString "http://www.w3.org/2001/XMLSchema#");
                          ("rdf", JString "http://www.w3.org/1999/02/22-rdf-syntax-ns#");
                          ("rdfs", JString "http://www.w3.org/2000/01/rdf-schema#");
                          ("A", JObject [ ("@id", JString "cim:A");
                                          ("@context", JString "CIM/A.jsonld") ]);
                          ("B", JObject [ ("@id", JString "cim:B");
                                          ("@context", JString "CIM/B.jsonld") ]) ]) ])).
Proof. eexists. split_and!; by vm_compute. Qed.

(** With the class [Z] first, its file is written before the run raises on
    [b/c.jsonld]; either way [context.jsonld] is not written. *)
Example class_file_refused_later :
  ∃ record,
    (convert json_dumps_indent2 (recorder no_subdirectories)
       (store ["http://ex.org/s#Z"; "http://ex.org/a#b/c"] [] [])
       (__init__ cim16 None) []).2 = Raised record
    ∧ record.*1 = [InCimDir "Z.jsonld"].
Proof. eexists. split; by vm_compute. Qed.

Example encoder_nesting :
  json_dumps_indent2 (JObject [("a", JObject [("b", JString "c")]); ("d", JObject [])])
  = "{" +:+ newline
    +:+ "  " +:+ quote "a" +:+ ": {" +:+ newline
    +:+ "    " +:+ quote "b" +:+ ": " +:+ quote "c" +:+ newline
    +:+ "  }," +:+ newline
    +:+ "  " +:+ quote "d" +:+ ": {}" +:+ newline
    +:+ "}".
Proof. reflexivity. Qed.

(** ** Local names and stripping, on examples *)

Example local_name_fragment :
  _extract_local_name "http://iec.ch/TC57/2013/CIM-schema-cim16#ACLineSegment.r"
  = "ACLineSegment.r".
Proof. reflexivity. Qed.

Example local_name_path :
  _extract_local_name "http://example.org/schema/Terminal" = "Terminal".
Proof. reflexivity. Qed.

Example local_name_fragment_wins :
  _extract_local_name "http://example.org/a#b/c" = "b/c".
Proof. reflexivity. Qed.

Example local_name_plain : _extract_local_name "Terminal" = "Terminal".
Proof. reflexivity. Qed.

Example rstrip_all : rstrip "/" "https://h/c//" = "https://h/c".
Proof. reflexivity. Qed.

Example sorted_by_code_point :
  sorted ["b"; "a"; "B"; "rdf"; ""] = [""; "B"; "a"; "b"; "rdf"].
Proof. by vm_compute. Qed.

(** The cyclic schema: each class gets the other's property, then its own. *)
Example cycle_effective :
  dict_keys (_get_inherited_properties cycle_schema "X") = ["Y.y"; "X.x"]
  ∧ dict_keys (_get_inherited_properties cycle_schema "Y") = ["X.x"; "Y.y"].
Proof. by vm_compute. Qed.

(** * Further properties of the converter *)

(** ** Local names *)

Lemma str_app_nil_l s : EmptyString +:+ s = s.
Proof. reflexivity. Qed.

Lemma str_app_cons a s t : String a s +:+ t = String a (s +:+ t).
Proof. reflexivity. Qed.

Lemma str_mem_app_sep c pre post : str_mem c (pre +:+ String c post) = true.
Proof.
  induction pre as [|a pre IH].
  - rewrite str_app_nil_l. cbn. by rewrite decide_True.
  - rewrite str_app_cons. cbn. case_decide; [done|]. apply IH.
Qed.

Lemma str_split_no_sep c s : str_mem c s = false → str_split c s = [s].
Proof.
  intros Hno. destruct (str_split_spec c s) as (h & r & -> & Hn & _).
  by destruct (Hn Hno) as [-> ->].
Qed.

Lemma str_split_last_app c pre name d :
  str_mem c name = false →
  List.last (str_split c (pre +:+ String c name)) d = name.
Proof.
  intros Hname. induction pre as [|a pre IH].
  - rewrite str_app_nil_l. cbn. rewrite decide_True by done.
    by rewrite str_split_no_sep.
  - rewrite str_app_cons. cbn [str_split].
    destruct (str_split_spec c (pre +:+ String c name))
      as (h & r & Hsplit & _ & Hyes).
    destruct (Hyes (str_mem_app_sep c pre name)) as [Hr _].
    rewrite Hsplit in IH |- *.
    destruct (decide (a = c)); destruct r; done.
Qed.

Lemma str_mem_app c a b : str_mem c (a +:+ b) = str_mem c a || str_mem c b.
Proof.
  induction a as [|x a IH]; [done|].
  rewrite str_app_cons. cbn. by case_decide.
Qed.

(** X1.  The local name of a URI is a suffix of the URI and never contains
    ['#']; when the URI has no ['#'] it contains no ['/'] either; a URI
    without either separator is its own local name; and a URI that ends
    with its separator has the empty local name. *)
Theorem local_name_is_suffix (uri : string) :
  (∃ pre, uri = pre +:+ _extract_local_name uri)
  ∧ str_mem "#" (_extract_local_name uri) = false
  ∧ (str_mem "#" uri = false → str_mem "/" (_extract_local_name uri) = false)
  ∧ (str_mem "#" uri = false → str_mem "/" uri = false →
     _extract_local_name uri = uri)
  ∧ _extract_local_name (uri +:+ "#") = EmptyString
  ∧ (str_mem "#" uri = false →
     _extract_local_name (uri +:+ "/") = EmptyString).
Proof.
  destruct (extract_local_name_spec uri) as (Hhash & Hslash & Hplain).
  destruct (str_mem "#" uri) eqn:Hh; [|destruct (str_mem "/" uri) eqn:Hs].
  - destruct (Hhash eq_refl) as (pre & Huri & Hno).
    split_and!; try done.
    + exists (pre +:+ "#"). rewrite Huri at 1.
      clear. induction pre as [|a pre IH]; [done|].
      rewrite !str_app_cons. by rewrite IH.
    + unfold _extract_local_name at 1. rewrite str_mem_app_sep.
      by rewrite str_split_last_app.
  - destruct (Hslash eq_refl eq_refl) as (pre & Huri & Hno).
    assert (str_mem "#" (_extract_local_name uri) = false) as Hnohash.
    { rewrite Huri in Hh. rewrite str_mem_app in Hh.
      apply orb_false_iff in Hh as [_ Hh]. cbn in Hh.
      by rewrite decide_False in Hh by done. }
    split_and!; try done.
    + exists (pre +:+ "/"). rewrite Huri at 1.
      clear. induction pre as [|a pre IH]; [done|].
      rewrite !str_app_cons. by rewrite IH.
    + unfold _extract_local_name at 1. rewrite str_mem_app_sep.
      by rewrite str_split_last_app.
    + intros _. unfold _extract_local_name at 1.
      rewrite str_mem_app, Hh. cbn [orb str_mem].
      rewrite decide_False by done. cbn [str_mem].
      rewrite str_mem_app_sep. by rewrite str_split_last_app.
  - rewrite (Hplain eq_refl eq_refl).
    split_and!; try done.
    + by exists EmptyString.
    + unfold _extract_local_name at 1. rewrite str_mem_app_sep.
      by rewrite str_split_last_app.
    + intros _. unfold _extract_local_name at 1.
      rewrite str_mem_app, Hh. cbn [orb str_mem].
      rewrite decide_False by done. cbn [str_mem].
      rewrite str_mem_app_sep. by rewrite str_split_last_app.
Qed.

Lemma local_name_is_suffix_witness :
  _extract_local_name "urn:cim" = "urn:cim"
  ∧ str_mem "/" (_extract_local_name "http://ex.org/schema/Terminal") = false
  ∧ _extract_local_name ("http://ex.org/schema" +:+ "/") = EmptyString.
Proof.
  split_and!.
  - apply (local_name_is_suffix "urn:cim"); reflexivity.
  - apply (local_name_is_suffix "http://ex.org/schema/Terminal"). reflexivity.
  - apply (local_name_is_suffix "http://ex.org/schema"). reflexivity.
Defined.

(** X2.  Extraction undoes qualification: the local name of a namespace
    ending in ['#'] followed by a name without ['#'] is that name, and the
    local name of a namespace without ['#'] followed by ['/'] and a name
    without ['#'] and ['/'] is that name. *)
Theorem local_name_of_qualified (namespace name : string) :
  (str_mem "#" name = false →
   _extract_local_name (namespace +:+ String "#" name) = name)
  ∧ (str_mem "#" namespace = false → str_mem "#" name = false →
     str_mem "/" name = false →
     _extract_local_name (namespace +:+ String "/" name) = name).
Proof.
  split.
  - intros Hname. unfold _extract_local_name.
    rewrite str_mem_app_sep. by apply str_split_last_app.
  - intros Hns Hname Hslash. unfold _extract_local_name.
    rewrite str_mem_app, Hns. cbn [orb str_mem].
    rewrite decide_False by done. rewrite Hname, str_mem_app_sep.
    by apply str_split_last_app.
Qed.

Lemma local_name_of_qualified_witness :
  _extract_local_name (cim16 +:+ "ACLineSegment.r") = "ACLineSegment.r"
  ∧ _extract_local_name ("http://ex.org/schema" +:+ String "/" "Terminal")
    = "Terminal".
Proof.
  split.
  - exact (proj1 (local_name_of_qualified
                    "http://iec.ch/TC57/2013/CIM-schema-cim16"
                    "ACLineSegment.r") eq_refl).
  - exact (proj2 (local_name_of_qualified "http://ex.org/schema" "Terminal")
             eq_refl eq_refl eq_refl).
Defined.

(** ** The registries after extraction *)

Lemma first_occurrences_NoDup l : NoDup (first_occurrences l).
Proof.
  induction l as [|x l IH]; cbn; [constructor|].
  apply NoDup_cons. split.
  - rewrite list_elem_of_filter. by intros [? _].
  - by apply NoDup_filter.
Qed.

Lemma first_occurrences_elem l x : x ∈ first_occurrences l ↔ x ∈ l.
Proof.
  induction l as [|y l IH]; cbn; [done|].
  rewrite !elem_of_cons, list_elem_of_filter, IH.
  destruct (decide (x = y)); naive_solver.
Qed.

Lemma first_occurrences_id l : NoDup l → first_occurrences l = l.
Proof.
  induction 1 as [|x l Hx Hl IH]; cbn; [done|]. rewrite IH. f_equal.
  clear IH Hl. induction l as [|y l IH]; [done|].
  apply not_elem_of_cons in Hx as [Hne Hx].
  rewrite filter_cons, decide_True by done. f_equal. by apply IH.
Qed.

Lemma first_occurrences_length l : length (first_occurrences l) ≤ length l.
Proof.
  induction l as [|x l IH]; cbn; [done|].
  pose proof (length_filter (λ y, y ≠ x) (first_occurrences l)). lia.
Qed.

Lemma filter_filter_ne (P : string → Prop) `{!∀ x, Decision (P x)} k
    (l : list string) :
  filter (λ y, P y ∧ y ≠ k) l = filter P (filter (λ y, y ≠ k) l).
Proof.
  induction l as [|y l IH]; [done|].
  rewrite !filter_cons. destruct (decide (y ≠ k)) as [Hne|Heq].
  - rewrite filter_cons. destruct (decide (P y)).
    + rewrite decide_True by done. by rewrite IH.
    + rewrite decide_False by tauto. done.
  - rewrite decide_False by tauto. done.
Qed.

Lemma filter_not_in_nil (l : list string) :
  filter (λ k, k ∉ ([] : list string)) l = l.
Proof.
  induction l as [|x l IH]; [done|].
  rewrite filter_cons, decide_True by apply not_elem_of_nil. by rewrite IH.
Qed.

(** The keys of an updated dictionary: the old keys, then the new ones in
    the order of their first occurrence. *)
Lemma dict_update_keys {V} (d o : dict V) :
  (dict_update d o).*1
  = d.*1 ++ filter (λ k, k ∉ d.*1) (first_occurrences o.*1).
Proof.
  revert d. induction o as [|[k v] o IH]; intros d.
  { cbn. by rewrite app_nil_r. }
  rewrite dict_update_cons, IH, dict_set_keys. cbn [fmap list_fmap fst].
  cbn [first_occurrences]. rewrite filter_cons.
  destruct (decide (k ∈ d.*1)) as [Hin|Hnin].
  - rewrite decide_False by tauto. f_equal.
    rewrite <- filter_filter_ne. apply list_filter_iff.
    intros x. split; [|tauto]. intros Hx. split; [done|]. by intros ->.
  - rewrite decide_True by done. rewrite <- app_assoc. cbn. do 2 f_equal.
    rewrite <- filter_filter_ne. apply list_filter_iff.
    intros x. rewrite elem_of_app, list_elem_of_singleton. tauto.
Qed.

Lemma fold_extract_class_update l self :
  classes (fold_left extract_class l self)
  = dict_update (classes self)
      (map (λ u, (_extract_local_name u, class_of_subject (graph self) u)) l).
Proof.
  induction l as [|u l IH] in self |- *; [done|].
  cbn [fold_left map]. rewrite IH, dict_update_cons.
  by rewrite extract_class_classes, extract_class_graph.
Qed.

Lemma fold_extract_property_update l self :
  properties (fold_left extract_property l self)
  = dict_update (properties self)
      (map (λ u, (_extract_local_name u, property_of_subject (graph self) u)) l).
Proof.
  induction l as [|u l IH] in self |- *; [done|].
  cbn [fold_left map]. rewrite IH, dict_update_cons.
  by rewrite extract_property_properties, extract_property_graph.
Qed.

Lemma with_properties_own cd : with_properties (cls_properties cd) cd = cd.
Proof. by destruct cd. Qed.

Lemma domain_class_Some g u c :
  domain_class g u = Some c ↔
  ∃ d, str_or_none (value g u RDFS_domain) = Some d
       ∧ str_truthy d = true ∧ _extract_local_name d = c.
Proof.
  unfold domain_class. rewrite fmap_Some. split.
  - intros (d & [Hd Ht]%when_truthy_Some & ->). by exists d.
  - intros (d & Hd & Ht & <-). exists d. split; [|done].
    by apply when_truthy_Some.
Qed.

(** One property subject, seen from a class of the registry. *)
Lemma extract_property_class self u c cd :
  dict_get c (classes self) = Some cd →
  dict_get c (classes (extract_property self u))
  = Some (if decide (domain_class (graph self) u = Some c)
          then attach (_extract_local_name u) (ref_of_subject (graph self) u) cd
          else cd).
Proof.
  intros Hc.
  destruct (extract_property_classes self u)
    as [[Hno ->]|(d & cd' & Hd & Ht & Hcd' & ->)].
  - rewrite Hc, decide_False; [done|].
    intros (d & Hd & Ht & <-)%domain_class_Some. apply Hno. exists d.
    split_and!; [done..|]. apply dict_get_is_Some. by eexists.
  - rewrite dict_get_set.
    destruct (decide (_extract_local_name d = c)) as [<-|Hne].
    + rewrite decide_True; [by simplify_eq|].
      apply domain_class_Some. by exists d.
    + rewrite decide_False; [done|].
      intros (d' & Hd' & _ & Heq)%domain_class_Some. congruence.
Qed.

Lemma fold_extract_property_class l self c cd :
  dict_get c (classes self) = Some cd →
  dict_get c (classes (fold_left extract_property l self))
  = Some (with_properties
            (dict_update (cls_properties cd) (own_entries (graph self) c l)) cd).
Proof.
  induction l as [|u l IH] in self, cd |- *; intros Hc.
  { cbn. by rewrite Hc, with_properties_own. }
  cbn [fold_left]. pose proof (extract_property_class self u c cd Hc) as Hstep.
  rewrite (IH _ _ Hstep), extract_property_graph.
  unfold own_entries. rewrite filter_cons.
  destruct (decide (domain_class (graph self) u = Some c)); [|done].
  cbn [map]. by rewrite dict_update_cons.
Qed.

Lemma extracted_classes_keys g base url :
  dict_keys (classes (extracted g (__init__ base url)))
  = first_occurrences (_extract_local_name <$> class_subjects g).
Proof.
  rewrite extracted_keys. unfold extract_classes, dict_keys.
  rewrite fold_extract_class_update, dict_update_keys. cbn.
  rewrite filter_not_in_nil.
  f_equal. generalize (class_subjects g). intros l.
  induction l as [|u l IH]; [done|]. cbn. f_equal. apply IH.
Qed.

Lemma extracted_classes_get g base url n :
  dict_get n (classes (extracted g (__init__ base url)))
  = (λ u, with_properties
            (dict_update [] (own_entries g n (property_subjects g)))
            (class_of_subject g u))
    <$> last_named n (class_subjects g).
Proof.
  unfold extracted, extract_properties.
  set (s1 := extract_classes (load_schemas g (__init__ base url))).
  assert (Hg : graph s1 = g).
  { subst s1. unfold extract_classes.
    by destruct (fold_extract_class_inv
                   (class_subjects (graph (load_schemas g (__init__ base url))))
                   (load_schemas g (__init__ base url))) as (-> & _). }
  assert (H1 : dict_get n (classes s1)
               = class_of_subject g <$> last_named n (class_subjects g)).
  { subst s1. unfold extract_classes. rewrite fold_extract_class_get.
    cbn. by destruct (last_named n (class_subjects g)). }
  destruct (last_named n (class_subjects g)) as [u|] eqn:Hlast; cbn in *.
  - rewrite (fold_extract_property_class _ _ _ _ H1), Hg. done.
  - apply dict_get_None. apply dict_get_None in H1.
    destruct (fold_extract_property_inv g (dict_keys (classes s1))
                (property_subjects (graph s1))
                (property_subjects (graph s1)) s1)
      as (_ & _ & _ & Hk & _); [done..|].
    unfold dict_keys in Hk. by rewrite Hk.
Qed.

(** X3.  The class registry at the end of extraction.  Its keys are the
    local names of the class subjects in the order of their first
    occurrence; the descriptor under a name is that of the last class
    subject with this local name; and its own-property mapping holds
    exactly the property subjects whose domain names the class, entered in
    the store's order under their local names. *)
Theorem extracted_class_registry (g : Graph) (base : string)
    (url : option string) :
  dict_keys (classes (extracted g (__init__ base url)))
  = first_occurrences (_extract_local_name <$> class_subjects g)
  ∧ ∀ n,
      dict_get n (classes (extracted g (__init__ base url)))
      = (λ u, with_properties
                (dict_update [] (own_entries g n (property_subjects g)))
                (class_of_subject g u))
        <$> last_named n (class_subjects g).
Proof.
  split; [apply extracted_classes_keys|]. intros n. apply extracted_classes_get.
Qed.

(** X4.  The global property registry at the end of extraction.  Its keys
    are the local names of the property subjects in the order of their
    first occurrence, and the descriptor under a name is that of the last
    property subject with this local name, whether or not its domain names
    a class: its label is the label [_get_label] extracts, or its local name
    when that is none or empty, and comment, domain and range are what
    [_get_comment], [_get_domain] and [_get_range] extract: the string of
    the node the store gives if that node is true, and nothing otherwise. *)
Theorem extracted_property_registry (g : Graph) (base : string)
    (url : option string) :
  dict_keys (properties (extracted g (__init__ base url)))
  = first_occurrences (_extract_local_name <$> property_subjects g)
  ∧ ∀ n,
      dict_get n (properties (extracted g (__init__ base url)))
      = (λ u,
           {| prop_id := u;
              prop_label :=
                or_else (str_or_none (value g u RDFS_label))
                  (_extract_local_name u);
              prop_comment := str_or_none (value g u RDFS_comment);
              prop_domain := str_or_none (value g u RDFS_domain);
              prop_range := str_or_none (value g u RDFS_range) |})
        <$> last_named n (property_subjects g).
Proof.
  set (s0 := load_schemas g (__init__ base url)).
  assert (Hs1 : graph (extract_classes s0) = g
                ∧ properties (extract_classes s0) = []).
  { unfold extract_classes.
    by destruct (fold_extract_class_inv (class_subjects (graph s0)) s0)
      as (-> & _ & _ & -> & _). }
  destruct Hs1 as [Hg Hp]. split.
  - unfold extracted, extract_properties, dict_keys. fold s0.
    rewrite fold_extract_property_update, dict_update_keys, Hp, Hg. cbn.
    rewrite filter_not_in_nil.
    f_equal. generalize (property_subjects g). intros l.
    induction l as [|u l IH]; [done|]. cbn. f_equal. apply IH.
  - intros n. unfold extracted, extract_properties. fold s0.
    rewrite fold_extract_property_get, Hg, Hp.
    by destruct (last_named n (property_subjects g)) as [u|].
Qed.

(** The property [A.n] of the store below has the integer literal [0] as
    its label: the registry records the local name as label. *)
Lemma extracted_property_registry_witness :
  dict_keys (properties typed_label_schema) = ["A.n"]
  ∧ dict_get "A.n" (properties typed_label_schema)
    = Some {| prop_id := "http://ex.org/s#A.n";
              prop_label := "A.n";
              prop_comment := None;
              prop_domain := Some "http://ex.org/s#A";
              prop_range := None |}.
Proof.
  destruct (extracted_property_registry typed_label_graph cim16 None)
    as [Hkeys Hget].
  split; [exact Hkeys|]. exact (Hget "A.n").
Defined.

(** X5.  Extracting properties never adds, removes or reorders classes and
    never changes a class's URI, label, comment or superclass; it leaves the
    store and the configuration alone, and it keeps every key the property
    registry already has. *)
Theorem extract_properties_preserves (self : Converter) :
  dict_keys (classes (extract_properties self)) = dict_keys (classes self)
  ∧ (∀ n, header_of <$> dict_get n (classes (extract_properties self))
          = header_of <$> dict_get n (classes self))
  ∧ graph (extract_properties self) = graph self
  ∧ base_uri (extract_properties self) = base_uri self
  ∧ context_base_url (extract_properties self) = context_base_url self
  ∧ (∀ n, n ∈ dict_keys (properties self) →
          n ∈ dict_keys (properties (extract_properties self))).
Proof.
  unfold extract_properties.
  destruct (fold_extract_property_inv (graph self) (dict_keys (classes self))
              (property_subjects (graph self)) (property_subjects (graph self))
              self) as (Hg & Hb & Hc & Hk & Hh & _); [done..|].
  split_and!; try done.
  intros n Hn. unfold dict_keys in *.
  rewrite fold_extract_property_update, dict_update_keys.
  apply elem_of_app. by left.
Qed.

(** ** Properties in the class context of their domain class *)

Lemma dict_update_app {V} (d o1 o2 : dict V) :
  dict_update d (o1 ++ o2) = dict_update (dict_update d o1) o2.
Proof. unfold dict_update. apply fold_left_app. Qed.

Lemma dict_get_update_last {V} (d o1 o2 : dict V) k v :
  k ∉ o2.*1 → dict_get k (dict_update d (o1 ++ (k, v) :: o2)) = Some v.
Proof.
  intros Hk. rewrite dict_update_app, dict_update_cons.
  rewrite dict_get_update_notin by done. apply dict_get_set_eq.
Qed.

Lemma own_entries_app g c l1 l2 :
  own_entries g c (l1 ++ l2) = own_entries g c l1 ++ own_entries g c l2.
Proof. unfold own_entries. by rewrite filter_app, map_app. Qed.

Lemma own_entries_elem g c l p r :
  (p, r) ∈ own_entries g c l ↔
  ∃ u, u ∈ l ∧ domain_class g u = Some c
       ∧ p = _extract_local_name u ∧ r = ref_of_subject g u.
Proof.
  unfold own_entries. rewrite list_elem_of_fmap. split.
  - intros (u & [= -> ->] & [? ?]%list_elem_of_filter). by exists u.
  - intros (u & ? & ? & -> & ->). exists u. split; [done|].
    by apply list_elem_of_filter.
Qed.

(** The effective set of a class ends with the class's own mapping. *)
Lemma inherited_own_last self class_name cd :
  dict_get class_name (classes self) = Some cd →
  ∃ ancestors,
    superclass_chain (enough_fuel self) (classes self) class_name ∅
    = cd :: ancestors
    ∧ _get_inherited_properties self class_name
      = dict_update (overlay ancestors) (cls_properties cd).
Proof.
  intros Hget. rewrite get_inherited_properties_overlay.
  unfold enough_fuel. cbn [superclass_chain].
  rewrite decide_False by apply not_elem_of_empty. rewrite Hget.
  eexists. split; reflexivity.
Qed.

Lemma prop_context_annotations prop_data :
  dict_get "rdfs:label" (prop_context prop_data)
  = JString <$> when_truthy (ref_label prop_data)
  ∧ dict_get "rdfs:comment" (prop_context prop_data)
    = JString <$> when_truthy (ref_comment prop_data).
Proof.
  unfold prop_context, when_truthy.
  destruct (ref_range prop_data) as [r|], (ref_label prop_data) as [l|],
    (ref_comment prop_data) as [c|]; cbn;
    try destruct (str_truthy r); try destruct (str_contains _ _);
    try destruct (str_truthy l); try destruct (str_truthy c); by split.
Qed.

(** X6.  A property subject whose domain is true, not empty, and names a
    class of the store is an own property of that class under its local
    name, unless a property subject extracted later has the same local name
    and a domain naming the same class.  It is then in the effective set of
    the class and in the class's context document under [cim:<local name>],
    with its URI as ["@id"], and with ["rdfs:label"] and ["rdfs:comment"]
    only when [_get_label] and [_get_comment] extract one that is not
    empty: a property without a label gets no label, where a class without
    a label gets its local name. *)
Theorem domain_property_emitted (g : Graph) (base : string)
    (url : option string) (prop_uri domain_uri : string)
    (before after : list string) :
  property_subjects g = before ++ prop_uri :: after →
  str_or_none (value g prop_uri RDFS_domain) = Some domain_uri →
  str_truthy domain_uri = true →
  _extract_local_name domain_uri ∈ _extract_local_name <$> class_subjects g →
  (∀ v, v ∈ after →
        domain_class g v = Some (_extract_local_name domain_uri) →
        _extract_local_name v ≠ _extract_local_name prop_uri) →
  ∃ cd doc entry,
    dict_get (_extract_local_name domain_uri)
      (classes (extracted g (__init__ base url))) = Some cd
    ∧ dict_get (_extract_local_name prop_uri) (cls_properties cd)
      = Some (ref_of_subject g prop_uri)
    ∧ dict_get (_extract_local_name prop_uri)
        (_get_inherited_properties (extracted g (__init__ base url))
           (_extract_local_name domain_uri))
      = Some (ref_of_subject g prop_uri)
    ∧ (_extract_local_name domain_uri +:+ ".jsonld", doc)
      ∈ class_contexts (extracted g (__init__ base url))
    ∧ dict_get ("cim:" +:+ _extract_local_name prop_uri) doc
      = Some (JObject entry)
    ∧ dict_get "@id" entry = Some (JString prop_uri)
    ∧ dict_get "rdfs:label" entry
      = JString <$> when_truthy (str_or_none (value g prop_uri RDFS_label))
    ∧ dict_get "rdfs:comment" entry
      = JString <$> when_truthy (str_or_none (value g prop_uri RDFS_comment)).
Proof.
  intros Hsubj Hdom Htrue Hclass Hlast.
  set (self := extracted g (__init__ base url)).
  set (c := _extract_local_name domain_uri) in *.
  assert (Hkey : c ∈ (classes self).*1).
  { change ((classes self).*1) with (dict_keys (classes self)).
    subst self. by rewrite extracted_classes_keys, first_occurrences_elem. }
  apply dict_get_is_Some in Hkey as [cd Hcd].
  pose proof (extracted_classes_get g base url c) as Hget.
  fold self in Hget. rewrite Hcd in Hget.
  destruct (last_named c (class_subjects g)) as [cu|]; [|done].
  cbn in Hget. injection Hget as Hcdeq.
  assert (Hown : dict_get (_extract_local_name prop_uri) (cls_properties cd)
                 = Some (ref_of_subject g prop_uri)).
  { rewrite Hcdeq. cbn [cls_properties with_properties].
    rewrite Hsubj, own_entries_app.
    assert (own_entries g c (prop_uri :: after)
            = (_extract_local_name prop_uri, ref_of_subject g prop_uri)
              :: own_entries g c after) as ->.
    { unfold own_entries. rewrite filter_cons, decide_True; [done|].
      apply domain_class_Some. by exists domain_uri. }
    apply dict_get_update_last.
    intros ((p & r) & Hp & (u & Hu & Hdc & -> & ->)%own_entries_elem)%list_elem_of_fmap.
    cbn in Hp. by apply (Hlast u). }
  destruct (inherited_own_last self c cd Hcd) as (ancestors & _ & Heff).
  assert (Hinh : dict_get (_extract_local_name prop_uri)
                   (_get_inherited_properties self c)
                 = Some (ref_of_subject g prop_uri)).
  { rewrite Heff, dict_get_update, Hown; [done|].
    rewrite Hcdeq. apply dict_update_wf. constructor. }
  exists cd, (_build_class_context self c cd (_get_inherited_properties self c)),
    (prop_context (ref_of_subject g prop_uri)).
  split_and!; try done.
  - apply class_contexts_elem. exists c, cd.
    split_and!; [by apply dict_get_Some_elem|done..].
  - rewrite build_class_context_prop by apply get_inherited_properties_wf.
    by rewrite Hinh.
  - apply prop_context_id.
  - by destruct (prop_context_annotations (ref_of_subject g prop_uri)) as [-> _].
  - by destruct (prop_context_annotations (ref_of_subject g prop_uri)) as [_ ->].
Qed.

(** The property [A.n] of the store below has the integer literal [0] as
    its label: its entry has no label. *)
Lemma domain_property_emitted_witness :
  ∃ cd doc entry,
    dict_get "A" (classes typed_label_schema) = Some cd
    ∧ dict_get "A.n" (cls_properties cd)
      = Some (ref_of_subject typed_label_graph "http://ex.org/s#A.n")
    ∧ ("A.jsonld", doc) ∈ class_contexts typed_label_schema
    ∧ dict_get "cim:A.n" doc = Some (JObject entry)
    ∧ dict_get "@id" entry = Some (JString "http://ex.org/s#A.n")
    ∧ dict_get "rdfs:label" entry = None.
Proof.
  destruct (domain_property_emitted typed_label_graph cim16 None
              "http://ex.org/s#A.n" "http://ex.org/s#A" [] [])
    as (cd & doc & entry & Hcd & Hown & _ & Hdoc & Hentry & Hid & Hlabel & _).
  - reflexivity.
  - reflexivity.
  - reflexivity.
  - compute_done.
  - intros v Hv. by apply elem_of_nil in Hv.
  - exists cd, doc, entry. split_and!; try done.
Defined.

(** X7.  Every property entry of a class context document stems from a
    property subject of the store: the entry under [cim:<p>] is the
    rendering of a property subject with local name [p] whose domain names
    a class of the superclass chain of the document's class, that is, the
    class itself or one of its ancestors. *)
Theorem emitted_property_origin (g : Graph) (base : string)
    (url : option string) (file : string) (doc : dict json) (p : string)
    (entry : dict json) :
  (file, doc) ∈ class_contexts (extracted g (__init__ base url)) →
  dict_get ("cim:" +:+ p) doc = Some (JObject entry) →
  ∃ c u a cda,
    file = c +:+ ".jsonld"
    ∧ u ∈ property_subjects g
    ∧ _extract_local_name u = p
    ∧ domain_class g u = Some a
    ∧ dict_get a (classes (extracted g (__init__ base url))) = Some cda
    ∧ cda ∈ superclass_chain (enough_fuel (extracted g (__init__ base url)))
              (classes (extracted g (__init__ base url))) c ∅
    ∧ entry = prop_context (ref_of_subject g u)
    ∧ dict_get "@id" entry = Some (JString u).
Proof.
  set (self := extracted g (__init__ base url)).
  intros (c & cd & _ & -> & ->)%class_contexts_elem Hentry.
  rewrite build_class_context_prop in Hentry
    by apply get_inherited_properties_wf.
  destruct (dict_get p (_get_inherited_properties self c)) as [pd|] eqn:Hpd;
    [|done].
  cbn in Hentry. injection Hentry as <-.
  apply dict_get_Some_elem in Hpd.
  rewrite get_inherited_properties_overlay in Hpd.
  apply overlay_elem in Hpd as (cda & Hchain & Hin).
  destruct (superclass_chain_elem _ _ _ _ _ Hchain) as [a Ha].
  destruct (extracted_spec g base url) as (_ & _ & _ & [Hwf _] & _).
  apply (dict_elem_get _ _ _ Hwf) in Ha. fold self in Ha.
  pose proof (extracted_classes_get g base url a) as Hget.
  fold self in Hget. rewrite Ha in Hget.
  destruct (last_named a (class_subjects g)) as [cu|]; [|done].
  cbn in Hget. injection Hget as Hcda.
  rewrite Hcda in Hin. cbn [cls_properties with_properties] in Hin.
  apply dict_update_elem in Hin as [Hin|Hin]; [by apply elem_of_nil in Hin|].
  apply own_entries_elem in Hin as (u & Hu & Hdc & -> & ->).
  exists c, u, a, cda. split_and!; try done. apply prop_context_id.
Qed.

Lemma emitted_property_origin_witness :
  ∃ c u a cda,
    "C.jsonld" = c +:+ ".jsonld"
    ∧ u ∈ property_subjects chain_graph
    ∧ _extract_local_name u = "A.a"
    ∧ domain_class chain_graph u = Some a
    ∧ dict_get a (classes (extracted chain_graph (__init__ cim16 None)))
      = Some cda.
Proof.
  destruct (emitted_property_origin chain_graph cim16 None "C.jsonld"
              (_build_class_context
                 (extracted chain_graph (__init__ cim16 None)) "C"
                 {| cls_id := "http://ex.org/s#C"; cls_label := "C";
                    cls_comment := None;
                    cls_subClassOf := Some "http://ex.org/s#B";
                    cls_properties :=
                      [("C.c",
                        ref_of_subject chain_graph "http://ex.org/s#C.c")] |}
                 (_get_inherited_properties
                    (extracted chain_graph (__init__ cim16 None)) "C"))
              "A.a"
              (prop_context (ref_of_subject chain_graph "http://ex.org/s#A.a")))
    as (c & u & a & cda & Hc & Hu & Hp & Hdc & Ha & _).
  - apply class_contexts_elem.
    exists "C",
      {| cls_id := "http://ex.org/s#C"; cls_label := "C";
         cls_comment := None;
         cls_subClassOf := Some "http://ex.org/s#B";
         cls_properties :=
           [("C.c", ref_of_subject chain_graph "http://ex.org/s#C.c")] |}.
    split; [|split; reflexivity].
    apply dict_get_Some_elem. vm_compute. reflexivity.
  - vm_compute. reflexivity.
  - exists c, u, a, cda. split; [exact Hc|]. split; [exact Hu|].
    split; [exact Hp|]. split; [exact Hdc|exact Ha].
Defined.

(** ** The layout of the documents *)

(** X8.  The layout of a class context document: the prefix bindings, the
    class's URI, type and label, the comment and the superclass link when
    there are any, and then one member per effective property, in the order
    of the effective set, under [cim:<name>].  No property takes the place
    of another member, whatever its name. *)
Theorem class_context_layout (self : Converter) (class_name : string)
    (class_data : ClassData) :
  _build_class_context self class_name class_data
    (_get_inherited_properties self class_name)
  = [ ("@context", JObject (prefix_bindings self));
      ("@id", JString (cls_id class_data));
      ("@type", JString "rdfs:Class");
      ("rdfs:label", JString (cls_label class_data)) ]
    ++ option_list ((λ c, ("rdfs:comment", JString c))
                    <$> when_truthy (cls_comment class_data))
    ++ option_list ((λ u, ("rdfs:subClassOf",
                           JObject [("@id", JString u); ("@type", JString "@id")]))
                    <$> when_truthy (cls_subClassOf class_data))
    ++ map (λ '(p, pd), ("cim:" +:+ p, JObject (prop_context pd)))
         (_get_inherited_properties self class_name).
Proof.
  rewrite build_class_context_eq, dict_update_fresh.
  - rewrite !app_assoc. f_equal. rewrite <- !app_assoc.
    unfold class_header, _build_class_context, when_truthy.
    destruct (cls_comment class_data) as [c|],
      (cls_subClassOf class_data) as [u|]; cbn;
      try destruct (str_truthy c); try destruct (str_truthy u); reflexivity.
  - apply prop_entries_wf, get_inherited_properties_wf.
  - intros k [p ->]%prop_entries_key_inv.
    apply dict_get_None, class_header_no_prop.
Qed.

(** X9.  The layout of the root document for a well-formed registry: the
    four prefix names first, then, in ascending order, the class names that
    are not prefix names.  Under a class name stands the class's entry, also
    when the name is a prefix name; under a prefix name that is not a class
    name stands the prefix binding.  When no class is named like a prefix,
    the class entries follow the four bindings in strictly ascending
    order. *)
Theorem root_context_layout (self : Converter) :
  dict_wf (classes self) →
  dict_keys (main_context_members self)
  = prefix_names
    ++ filter (λ n, n ∉ prefix_names) (sorted (dict_keys (classes self)))
  ∧ (∀ k, dict_get k (main_context_members self)
          = if decide (k ∈ dict_keys (classes self))
            then Some (class_entry self k)
            else dict_get k (prefix_bindings self))
  ∧ ((∀ n, n ∈ dict_keys (classes self) → n ∉ prefix_names) →
     main_context_members self
     = prefix_bindings self
       ++ map (λ n, (n, class_entry self n)) (sorted (dict_keys (classes self)))
     ∧ Sorted str_lt (dict_keys (class_entries self))).
Proof.
  intros Hwf.
  assert (Hnd : NoDup (sorted (dict_keys (classes self))))
    by by apply sorted_NoDup.
  split_and!.
  - unfold dict_keys at 1.
    rewrite main_context_members_eq, dict_update_keys, entries_keys.
    by rewrite first_occurrences_id.
  - intros k. rewrite main_context_members_eq, dict_get_update.
    + rewrite entries_get.
      destruct (decide (k ∈ dict_keys (classes self))) as [Hk|Hk].
      * by rewrite decide_True by by apply sorted_elem.
      * rewrite decide_False; [done|]. by rewrite sorted_elem.
    + unfold dict_wf. by rewrite entries_keys.
  - intros Hclash.
    destruct (main_context_members_no_clash self Hwf Hclash) as (? & _ & ?).
    done.
Qed.

Lemma root_context_layout_witness :
  dict_keys (main_context_members prefix_clash_schema)
  = ["cim"; "xsd"; "rdf"; "rdfs"; "a"]
  ∧ dict_keys (main_context_members override_schema)
    = ["cim"; "xsd"; "rdf"; "rdfs"; "A"; "B"]
  ∧ Sorted str_lt (dict_keys (class_entries override_schema)).
Proof.
  split_and!.
  - destruct (root_context_layout prefix_clash_schema) as (-> & _).
    + compute_done.
    + by vm_compute.
  - destruct (root_context_layout override_schema) as (-> & _).
    + compute_done.
    + by vm_compute.
  - destruct (root_context_layout override_schema) as (_ & _ & Hsorted).
    + compute_done.
    + apply Hsorted. apply Forall_forall. compute_done.
Defined.

Lemma sorted_Permutation l1 l2 : l1 ≡ₚ l2 → sorted l1 = sorted l2.
Proof.
  intros Hperm. unfold sorted.
  apply (StronglySorted_unique String.le).
  - apply StronglySorted_merge_sort; apply _.
  - apply StronglySorted_merge_sort; apply _.
  - by rewrite !merge_sort_Permutation.
Qed.

Lemma main_context_members_ext s1 s2 :
  base_uri s1 = base_uri s2 →
  context_base_url s1 = context_base_url s2 →
  sorted (dict_keys (classes s1)) = sorted (dict_keys (classes s2)) →
  main_context_members s1 = main_context_members s2.
Proof.
  intros Hb Hc Hs. rewrite !main_context_members_eq, Hs.
  unfold prefix_bindings, class_entry, context_url. by rewrite Hb, Hc.
Qed.

(** X10.  The root document does not depend on the order in which the
    store enumerates its class subjects, nor on anything else than the
    configuration and the set of local names of the class subjects: two
    stores with the same set of class local names give the same root
    document. *)
Theorem root_context_order_independent (g1 g2 : Graph) (base : string)
    (url : option string) :
  (∀ n, n ∈ _extract_local_name <$> class_subjects g1
        ↔ n ∈ _extract_local_name <$> class_subjects g2) →
  main_context (extracted g1 (__init__ base url))
  = main_context (extracted g2 (__init__ base url)).
Proof.
  intros Hnames. unfold main_context. do 3 f_equal.
  destruct (extracted_spec g1 base url) as (_ & Hb1 & Hc1 & _).
  destruct (extracted_spec g2 base url) as (_ & Hb2 & Hc2 & _).
  apply main_context_members_ext; [congruence..|].
  apply sorted_Permutation. rewrite !extracted_classes_keys.
  apply NoDup_Permutation; [apply first_occurrences_NoDup..|].
  intros n. by rewrite !first_occurrences_elem.
Qed.

Lemma root_context_order_independent_witness :
  main_context (extracted chain_graph (__init__ cim16 None))
  = main_context (extracted chain_graph_reordered (__init__ cim16 None)).
Proof.
  apply root_context_order_independent. intros n.
  assert (_extract_local_name <$> class_subjects chain_graph = ["C"; "A"; "B"])
    as -> by reflexivity.
  assert (_extract_local_name <$> class_subjects chain_graph_reordered
          = ["A"; "B"; "C"]) as -> by reflexivity.
  rewrite !elem_of_cons, !elem_of_nil. tauto.
Defined.

(** ** The files a run writes *)

Lemma generate_recorder_Returned json_dumps refused self record record' :
  generate json_dumps (recorder refused) self record = Returned record' →
  all_accepted refused (writes json_dumps self) = true
  ∧ record' = record ++ writes json_dumps self.
Proof.
  rewrite generate_recorder.
  destruct (all_accepted refused (writes json_dumps self)) eqn:Hall; [|done].
  intros [= <-]. by rewrite accepted_prefix_all.
Qed.

(** X11.  What a run asks of the file system.  For every file system, a
    run makes the [CIM] directory and then asks to write one file per class,
    [<name>.jsonld] in the [CIM] directory, in the order of the registry,
    and at last [context.jsonld] in the output directory; the first request
    that raises ends the run, so nothing is asked after it.  In a file
    system that records what it writes, the run returns exactly when none of
    these paths is refused, and what it has written then is one file per
    class and [context.jsonld]; when the file of a class is refused,
    [context.jsonld] is not written.  With no class at all the only request
    is [context.jsonld], holding the four prefix bindings. *)
Theorem generated_files (json_dumps : json → string) (self : Converter) :
  (∀ os fs,
     generate json_dumps os self fs
     = and_then (fs_mkdir_cim os fs) (run_writes os (writes json_dumps self)))
  ∧ (writes json_dumps self).*1
    = (InCimDir <$> ((λ n, n +:+ ".jsonld") <$> dict_keys (classes self)))
      ++ [InOutputDir "context.jsonld"]
  ∧ (∀ refused record,
       generate json_dumps (recorder refused) self record
       = (if all_accepted refused (writes json_dumps self)
          then Returned else Raised)
           (record ++ accepted_prefix refused (writes json_dumps self)))
  ∧ (∀ refused,
       all_accepted refused (writes json_dumps self) = true →
       accepted_prefix refused (writes json_dumps self) = writes json_dumps self)
  ∧ (∀ refused class_name text,
       class_name ∈ dict_keys (classes self) →
       refused (InCimDir (class_name +:+ ".jsonld")) = true →
       all_accepted refused (writes json_dumps self) = false
       ∧ (InOutputDir "context.jsonld", text)
         ∉ accepted_prefix refused (writes json_dumps self))
  ∧ (classes self = [] →
     writes json_dumps self
     = [(InOutputDir "context.jsonld",
         json_dumps (JObject [("@context", JObject (prefix_bindings self))]))]).
Proof.
  split_and!.
  - intros os fs. apply generate_run.
  - by rewrite writes_keys, class_contexts_keys.
  - intros refused record. apply generate_recorder.
  - intros refused. apply accepted_prefix_all.
  - intros refused class_name text Hin Hrefused.
    assert (InCimDir (class_name +:+ ".jsonld") ∈ (writes json_dumps self).*1)
      as ([path text'] & Hpath & Hw)%list_elem_of_fmap.
    { rewrite writes_keys, class_contexts_keys. apply elem_of_app. left.
      apply list_elem_of_fmap. eexists. split; [done|].
      apply list_elem_of_fmap. by exists class_name. }
    cbn in Hpath. subst path. split.
    + destruct (all_accepted refused (writes json_dumps self)) eqn:Hall; [|done].
      pose proof (all_accepted_elem _ _ _ Hall Hw) as Hacc. cbn in Hacc.
      congruence.
    + unfold writes in *. apply elem_of_app in Hw as [Hw|Hw].
      2:{ apply list_elem_of_singleton in Hw. discriminate Hw. }
      rewrite (accepted_prefix_app_refused _ _ _ _ Hw Hrefused).
      intros [Hroot _]%accepted_prefix_elem.
      apply list_elem_of_fmap in Hroot as ([file doc] & Heq & _).
      discriminate Heq.
  - intros Hempty. unfold writes, class_contexts, main_context,
      main_context_members, dict_keys. by rewrite Hempty.
Qed.

Lemma generated_files_witness :
  all_accepted no_subdirectories (writes json_dumps_indent2 slash_name_schema)
  = false
  ∧ (InOutputDir "context.jsonld",
     json_dumps_indent2 (JObject (main_context slash_name_schema)))
    ∉ accepted_prefix no_subdirectories
        (writes json_dumps_indent2 slash_name_schema).
Proof.
  destruct (generated_files json_dumps_indent2 slash_name_schema)
    as (_ & _ & _ & _ & Hrefused & _).
  apply (Hrefused no_subdirectories "b/c").
  - compute_done.
  - reflexivity.
Defined.

(** ** More on the inheritance resolver *)

(** X12.  The depth of the recursion: however much fuel there is, the
    resolver runs its body at most once per class of the registry that is
    not in the visiting set, and once more; so fuel one above the number of
    such classes is enough for it to return. *)
Theorem resolver_depth_bound (fuel : nat) (self : Converter)
    (class_name : string) (visiting : gset string) :
  length (visit_log fuel self class_name visiting)
  ≤ S (unvisited (classes self) visiting)
  ∧ unvisited (classes self) visiting ≤ length (classes self)
  ∧ is_Some (get_inherited_fuel (S (unvisited (classes self) visiting)) self
               class_name visiting).
Proof.
  split_and!.
  - revert class_name visiting.
    induction fuel as [|fuel IH]; intros class_name visiting; cbn; [lia|].
    destruct (decide (class_name ∈ visiting)) as [|Hv]; cbn; [lia|].
    destruct (dict_get class_name (classes self)) as [cd|] eqn:Hg; cbn; [|lia].
    destruct (cls_subClassOf cd) as [u|]; cbn; [|lia].
    destruct (str_truthy u); cbn; [|lia].
    specialize (IH (_extract_local_name u) ({[class_name]} ∪ visiting)).
    pose proof (unvisited_add _ class_name visiting cd Hv Hg). lia.
  - apply unvisited_le_length.
  - apply get_inherited_fuel_enough. lia.
Qed.

Lemma dict_update_key_elem {V} (d o : dict V) x :
  x ∈ (dict_update d o).*1 ↔ x ∈ d.*1 ∨ x ∈ o.*1.
Proof.
  rewrite dict_update_keys, elem_of_app, list_elem_of_filter,
    first_occurrences_elem.
  destruct (decide (x ∈ d.*1)); tauto.
Qed.

Lemma overlay_key_elem chain p :
  p ∈ (overlay chain).*1 ↔ ∃ cd, cd ∈ chain ∧ p ∈ (cls_properties cd).*1.
Proof.
  induction chain as [|cd chain IH]; cbn [overlay].
  - split; [intros H; by apply elem_of_nil in H|].
    intros (cd & H & _). by apply elem_of_nil in H.
  - rewrite dict_update_key_elem, IH. split.
    + intros [(cd' & ? & ?)|?].
      * exists cd'. split; [by apply list_elem_of_further|done].
      * exists cd. split; [apply list_elem_of_here|done].
    + intros (cd' & [->|?]%elem_of_cons & ?); [by right|].
      left. by exists cd'.
Qed.

(** Walking up from [x]: marking a class [c] as seen beforehand can only
    lose [c] itself, provided the superclass of [c] is [x] or is seen. *)
Lemma superclass_chain_seen fuel classes c cdc parent_uri x seen cd :
  dict_get c classes = Some cdc →
  cls_subClassOf cdc = Some parent_uri →
  str_truthy parent_uri = true →
  c ∉ seen →
  (_extract_local_name parent_uri ∈ seen ∨ x = _extract_local_name parent_uri) →
  cd ∈ superclass_chain fuel classes x seen →
  cd = cdc ∨ cd ∈ superclass_chain fuel classes x ({[c]} ∪ seen).
Proof.
  intros Hc Hsub Ht. revert x seen.
  induction fuel as [|fuel IH]; intros x seen Hcs Hp; cbn.
  { intros H. by apply elem_of_nil in H. }
  destruct (decide (x ∈ seen)) as [|Hx].
  { intros H. by apply elem_of_nil in H. }
  destruct (decide (x = c)) as [->|Hxc].
  - rewrite Hc, Hsub, Ht. intros [->|Hin]%elem_of_cons; [by left|].
    exfalso. destruct fuel as [|fuel]; cbn in Hin.
    { by apply elem_of_nil in Hin. }
    rewrite decide_True in Hin; [by apply elem_of_nil in Hin|].
    destruct Hp as [?|<-]; set_solver.
  - rewrite decide_False by set_solver.
    destruct (dict_get x classes) as [cdx|] eqn:Hgx.
    2:{ intros H. by apply elem_of_nil in H. }
    intros [->|Hin]%elem_of_cons; [right; apply list_elem_of_here|].
    destruct (cls_subClassOf cdx) as [ux|].
    2:{ by apply elem_of_nil in Hin. }
    destruct (str_truthy ux). 2:{ by apply elem_of_nil in Hin. }
    destruct (IH (_extract_local_name ux) ({[x]} ∪ seen)) as [?|Hin'];
      [set_solver| |done|by left|].
    { destruct Hp as [?|Hxp]; left; set_solver. }
    right. apply list_elem_of_further.
    by replace ({[x]} ∪ ({[c]} ∪ seen)) with ({[c]} ∪ ({[x]} ∪ seen))
      by set_solver.
Qed.

(** X13.  Inheritance only adds property names: whatever property name is
    in the effective set of the superclass of a class is in the effective
    set of the class, also when the superclass links form a cycle. *)
Theorem inherited_names_grow (self : Converter) (class_name : string)
    (class_data : ClassData) (parent_uri p : string) :
  dict_get class_name (classes self) = Some class_data →
  cls_subClassOf class_data = Some parent_uri →
  str_truthy parent_uri = true →
  is_Some (dict_get p (_get_inherited_properties self
                         (_extract_local_name parent_uri))) →
  is_Some (dict_get p (_get_inherited_properties self class_name)).
Proof.
  intros Hc Hsub Ht. rewrite !dict_get_is_Some.
  rewrite !get_inherited_properties_overlay, !overlay_key_elem.
  intros (cd & Hchain & Hp). exists cd. split; [|done].
  unfold enough_fuel in *.
  apply (superclass_chain_seen _ _ class_name class_data parent_uri) in Hchain;
    [|done|done|done|apply not_elem_of_empty|by right].
  cbn [superclass_chain]. rewrite decide_False by apply not_elem_of_empty.
  rewrite Hc, Hsub, Ht.
  destruct Hchain as [->|Hchain]; [apply list_elem_of_here|].
  apply list_elem_of_further.
  rewrite <- (superclass_chain_mono (length (classes self))
                (S (length (classes self)))); [done| |lia].
  pose proof (unvisited_add (classes self) class_name ∅ class_data
                (not_elem_of_empty _) Hc).
  pose proof (unvisited_le_length (classes self) ∅). lia.
Qed.

Lemma inherited_names_grow_witness :
  is_Some (dict_get "A.a" (_get_inherited_properties chain_schema "C"))
  ∧ is_Some (dict_get "X.x" (_get_inherited_properties cycle_schema "Y")).
Proof.
  split.
  - apply (inherited_names_grow chain_schema "C"
             {| cls_id := "http://ex.org/s#C"; cls_label := "C";
                cls_comment := None;
                cls_subClassOf := Some "http://ex.org/s#B";
                cls_properties :=
                  [("C.c", ref_of_subject chain_graph "http://ex.org/s#C.c")] |}
             "http://ex.org/s#B" "A.a").
    + reflexivity.
    + reflexivity.
    + reflexivity.
    + compute_done.
  - apply (inherited_names_grow cycle_schema "Y"
             {| cls_id := "http://ex.org/s#Y"; cls_label := "Y";
                cls_comment := None;
                cls_subClassOf := Some "http://ex.org/s#X";
                cls_properties :=
                  [("Y.y", ref_of_subject cycle_graph "http://ex.org/s#Y.y")] |}
             "http://ex.org/s#X" "X.x").
    + reflexivity.
    + reflexivity.
    + reflexivity.
    + compute_done.
Defined.

(** X14.  A superclass that is not a class of the registry: the class
    inherits nothing, its effective set is its own mapping, and its context
    document still carries the ["rdfs:subClassOf"] link to the superclass
    URI. *)
Theorem dangling_superclass (self : Converter) (class_name : string)
    (class_data : ClassData) (parent_uri : string) :
  registry_wf (classes self) →
  dict_get class_name (classes self) = Some class_data →
  cls_subClassOf class_data = Some parent_uri →
  str_truthy parent_uri = true →
  dict_get (_extract_local_name parent_uri) (classes self) = None →
  _get_inherited_properties self class_name = cls_properties class_data
  ∧ dict_get "rdfs:subClassOf"
      (_build_class_context self class_name class_data
         (_get_inherited_properties self class_name))
    = Some (JObject [("@id", JString parent_uri); ("@type", JString "@id")]).
Proof.
  intros [_ Hwf] Hc Hsub Ht Hparent. split.
  - rewrite get_inherited_properties_overlay. unfold enough_fuel.
    cbn [superclass_chain]. rewrite decide_False by apply not_elem_of_empty.
    rewrite Hc, Hsub, Ht.
    assert (superclass_chain (length (classes self)) (classes self)
              (_extract_local_name parent_uri) ({[class_name]} ∪ ∅) = []) as ->.
    { destruct (length (classes self)); [done|]. cbn.
      case_decide; [done|]. by rewrite Hparent. }
    cbn [overlay]. apply dict_update_empty.
    rewrite Forall_forall in Hwf.
    apply (Hwf (class_name, class_data)). by apply dict_get_Some_elem.
  - destruct (build_class_context_fields self class_name class_data
                (_get_inherited_properties self class_name))
      as (_ & _ & _ & _ & ->).
    rewrite Hsub. unfold when_truthy. cbn. by rewrite Ht.
Qed.

Lemma dangling_superclass_witness :
  _get_inherited_properties dangling_schema "A"
  = [("A.a", ref_of_subject dangling_graph "http://ex.org/s#A.a")]
  ∧ dict_get "rdfs:subClassOf"
      (_build_class_context dangling_schema "A"
         {| cls_id := "http://ex.org/s#A"; cls_label := "A";
            cls_comment := None;
            cls_subClassOf := Some "http://ex.org/s#Missing";
            cls_properties :=
              [("A.a", ref_of_subject dangling_graph "http://ex.org/s#A.a")] |}
         (_get_inherited_properties dangling_schema "A"))
    = Some (JObject [ ("@id", JString "http://ex.org/s#Missing");
                      ("@type", JString "@id") ]).
Proof.
  apply (dangling_superclass dangling_schema "A"
           {| cls_id := "http://ex.org/s#A"; cls_label := "A";
              cls_comment := None;
              cls_subClassOf := Some "http://ex.org/s#Missing";
              cls_properties :=
                [("A.a", ref_of_subject dangling_graph "http://ex.org/s#A.a")] |}
           "http://ex.org/s#Missing").
  - compute_done.
  - reflexivity.
  - reflexivity.
  - reflexivity.
  - reflexivity.
Defined.

(** ** The root document and the files *)




(** ** Independence of the order of the class subjects *)

Lemma get_inherited_fuel_ext fuel s1 s2 class_name visited :
  (∀ k, dict_get k (classes s1) = dict_get k (classes s2)) →
  get_inherited_fuel fuel s1 class_name visited
  = get_inherited_fuel fuel s2 class_name visited.
Proof.
  intros Hget. revert class_name visited.
  induction fuel as [|fuel IH]; intros class_name visited; [done|].
  cbn. rewrite Hget. destruct (decide (class_name ∈ visited)); [done|].
  destruct (dict_get class_name (classes s2)) as [cd|]; [|done].
  destruct (cls_subClassOf cd) as [u|]; [|done].
  destruct (str_truthy u); [|done]. by rewrite IH.
Qed.

Lemma build_class_context_ext s1 s2 class_name class_data all_properties :
  base_uri s1 = base_uri s2 →
  _build_class_context s1 class_name class_data all_properties
  = _build_class_context s2 class_name class_data all_properties.
Proof.
  intros Hb. unfold _build_class_context, prefix_bindings. by rewrite Hb.
Qed.

Lemma own_entries_ext g1 g2 c l :
  (∀ s p, value g1 s p = value g2 s p) →
  own_entries g1 c l = own_entries g2 c l.
Proof.
  intros Hv. unfold own_entries.
  assert (filter (λ u, domain_class g1 u = Some c) l
          = filter (λ u, domain_class g2 u = Some c) l) as ->.
  { apply list_filter_iff. intros u. unfold domain_class. by rewrite Hv. }
  apply map_ext. intros u. unfold ref_of_subject. by rewrite !Hv.
Qed.

Lemma last_named_Permutation n l1 l2 :
  l1 ≡ₚ l2 → NoDup (_extract_local_name <$> l1) →
  last_named n l1 = last_named n l2.
Proof.
  intros Hperm Hnd. unfold last_named.
  assert (Hone : ∀ l, NoDup (_extract_local_name <$> l) →
            length (filter (λ u, _extract_local_name u = n) l) ≤ 1).
  { intros l. induction l as [|u l IH]; [cbn; lia|].
    rewrite fmap_cons, NoDup_cons. intros [Hu Hl].
    rewrite filter_cons. destruct (decide (_extract_local_name u = n)) as [<-|].
    - assert (filter (λ v, _extract_local_name v = _extract_local_name u) l = [])
        as ->; [|cbn; lia].
      destruct (filter _ l) as [|v l'] eqn:Hf; [done|]. exfalso.
      assert (v ∈ filter (λ v, _extract_local_name v = _extract_local_name u) l)
        as [Hv ?]%list_elem_of_filter by (rewrite Hf; apply list_elem_of_here).
      apply Hu. rewrite <- Hv. apply list_elem_of_fmap. by exists v.
    - by apply IH. }
  assert (Hp : filter (λ u, _extract_local_name u = n) l1
               ≡ₚ filter (λ u, _extract_local_name u = n) l2)
    by by rewrite Hperm.
  pose proof (Hone l1 Hnd) as Hlen.
  destruct (filter (λ u, _extract_local_name u = n) l1) as [|u [|??]];
    [|  |cbn in Hlen; lia].
  - by apply Permutation_nil_l in Hp as <-.
  - by apply Permutation_singleton_l in Hp as ->.
Qed.

(** X16.  The documents of a run do not depend on the order in which the
    store enumerates its class subjects, as long as their local names are
    pairwise distinct: two stores that differ only in that order give the
    same class context documents for the same file names, in another
    order, and the same root document; so the requests to write are the
    same up to their order, and two runs that both return have written the
    same texts to the same paths.  (What a run that raises has written
    before does depend on the order.) *)
Theorem output_order_independent (json_dumps : json → string)
    (g1 g2 : Graph) (base : string) (url : option string) :
  class_subjects g1 ≡ₚ class_subjects g2 →
  NoDup (_extract_local_name <$> class_subjects g1) →
  property_subjects g1 = property_subjects g2 →
  (∀ s p, value g1 s p = value g2 s p) →
  class_contexts (extracted g1 (__init__ base url))
  ≡ₚ class_contexts (extracted g2 (__init__ base url))
  ∧ main_context (extracted g1 (__init__ base url))
    = main_context (extracted g2 (__init__ base url))
  ∧ writes json_dumps (extracted g1 (__init__ base url))
    ≡ₚ writes json_dumps (extracted g2 (__init__ base url))
  ∧ ∀ refused record1 record2,
      (convert json_dumps (recorder refused) g1 (__init__ base url) []).2
      = Returned record1 →
      (convert json_dumps (recorder refused) g2 (__init__ base url) []).2
      = Returned record2 →
      record1 ≡ₚ record2.
Proof.
  intros Hperm Hnd Hprops Hvalue.
  set (s1 := extracted g1 (__init__ base url)).
  set (s2 := extracted g2 (__init__ base url)).
  destruct (extracted_spec g1 base url) as (_ & Hb1 & Hc1 & [Hwf1 _] & _).
  destruct (extracted_spec g2 base url) as (_ & Hb2 & Hc2 & [Hwf2 _] & _).
  fold s1 in Hb1, Hc1, Hwf1. fold s2 in Hb2, Hc2, Hwf2.
  assert (Hget : ∀ n, dict_get n (classes s1) = dict_get n (classes s2)).
  { intros n. subst s1 s2. rewrite !extracted_classes_get.
    rewrite <- (last_named_Permutation n _ _ Hperm Hnd), <- Hprops.
    rewrite (own_entries_ext g1 g2) by done.
    destruct (last_named n (class_subjects g1)) as [u|]; [|done].
    cbn. unfold class_of_subject. by rewrite !Hvalue. }
  assert (Hclasses : classes s1 ≡ₚ classes s2).
  { apply NoDup_Permutation.
    - by eapply NoDup_fmap_1.
    - by eapply NoDup_fmap_1.
    - intros [n cd]. split; intros Hin.
      + apply dict_get_Some_elem. rewrite <- Hget. by apply dict_elem_get.
      + apply dict_get_Some_elem. rewrite Hget. by apply dict_elem_get. }
  assert (Hinh : ∀ n, _get_inherited_properties s1 n
                      = _get_inherited_properties s2 n).
  { intros n. unfold _get_inherited_properties, enough_fuel.
    rewrite (Permutation_length Hclasses).
    by rewrite (get_inherited_fuel_ext _ s1 s2). }
  assert (Hdocs : class_contexts s1 ≡ₚ class_contexts s2).
  { unfold class_contexts.
    etrans; [|apply Permutation_map; exact Hclasses].
    erewrite map_ext; [reflexivity|].
    intros [n cd]. rewrite Hinh.
    by rewrite (build_class_context_ext s1 s2) by congruence. }
  assert (Hroot : main_context s1 = main_context s2).
  { unfold main_context. do 3 f_equal.
    apply main_context_members_ext; [congruence..|].
    apply sorted_Permutation. unfold dict_keys. by rewrite Hclasses. }
  assert (Hwrites : writes json_dumps s1 ≡ₚ writes json_dumps s2).
  { unfold writes. rewrite Hroot. apply Permutation_app; [|done].
    by apply Permutation_map. }
  split_and!; [done..|].
  intros refused record1 record2. rewrite !convert_generate. cbn [snd].
  fold s1 s2.
  intros [_ ->]%generate_recorder_Returned [_ ->]%generate_recorder_Returned.
  done.
Qed.

Lemma output_order_independent_witness :
  writes json_dumps_indent2 (extracted chain_graph (__init__ cim16 None))
  ≡ₚ writes json_dumps_indent2
       (extracted chain_graph_reordered (__init__ cim16 None)).
Proof.
  destruct (output_order_independent json_dumps_indent2
              chain_graph chain_graph_reordered cim16 None)
    as (_ & _ & Hwrites & _).
  - change (class_subjects chain_graph)
      with (["http://ex.org/s#C"] ++ ["http://ex.org/s#A"; "http://ex.org/s#B"]).
    change (class_subjects chain_graph_reordered)
      with (["http://ex.org/s#A"; "http://ex.org/s#B"] ++ ["http://ex.org/s#C"]).
    apply Permutation_app_comm.
  - compute_done.
  - reflexivity.
  - intros s p. reflexivity.
  - exact Hwrites.
Defined.
